(** * AES core (aes_utilities.h, cpu_check.cpp): a shallow embedding

    The word primitives and the CPU check are embedded from their sources;
    the constant tables, the key schedule and the block engine, whose
    files are not among the sources, follow the specification.

    The 32-bit word type [T] of the templates is instantiated at
    [std::uint32_t]: a word is an integer in [0, 2^32) and a left shift is
    reduced modulo 2^32.  Octets are integers in [0, 2^8); [std::size_t] is
    64 bits wide.  An octet buffer is a list; reading or writing outside of
    it is undefined in the source and yields [None] here. *)

From Stdlib Require Import ZArith Lia List Bool.
From coqutil Require Import Z.bitblast.
From stdpp Require Import base option list.

Local Open Scope Z_scope.

(** ** Machine integers *)

Definition u8 (x : Z) : Z := x mod 2 ^ 8.
Definition u32 (x : Z) : Z := x mod 2 ^ 32.
Definition usize (x : Z) : Z := x mod 2 ^ 64.

Definition byte_range (b : Z) : Prop := 0 <= b < 2 ^ 8.
Definition word_range (w : Z) : Prop := 0 <= w < 2 ^ 32.

(** [x << n] and [x >> n] at type [T]. *)
Definition shl (x n : Z) : Z := u32 (Z.shiftl x n).
Definition shr (x n : Z) : Z := Z.shiftr x n.

(** [(column << 2) + k] at type [std::size_t]. *)
Definition at_col (column k : Z) : Z := usize (usize (Z.shiftl column 2) + k).

(** ** Octet buffers *)

Definition load (buffer : list Z) (i : Z) : option Z := buffer !! Z.to_nat i.

Definition store (buffer : list Z) (i v : Z) : option (list Z) :=
  if decide (Z.to_nat i < length buffer)%nat
  then Some (<[Z.to_nat i := u8 v]> buffer)
  else None.

(** ** GetWordFromBuffer, PutStateColumn *)

Definition GetWordFromBuffer (buffer : list Z) (offset : Z) : option Z :=
  b0 ← load buffer (at_col offset 0);
  b1 ← load buffer (at_col offset 1);
  b2 ← load buffer (at_col offset 2);
  b3 ← load buffer (at_col offset 3);
  Some (Z.lor (Z.lor (Z.lor (shl b0 24) (shl b1 16)) (shl b2 8)) b3).

Definition PutStateColumn (value column : Z) (ciphertext : list Z)
  : option (list Z) :=
  c0 ← store ciphertext (at_col column 0) (Z.land (shr value 24) 0xff);
  c1 ← store c0 (at_col column 1) (Z.land (shr value 16) 0xff);
  c2 ← store c1 (at_col column 2) (Z.land (shr value 8) 0xff);
  store c2 (at_col column 3) (Z.land value 0xff).

(** ** RotWord *)

(** Modelled from the spec: [Terra::BitUtil::RotateLeft] comes from the
    header terra/bitutil/bit_rotation.h, which is not among the sources.
    The call [RotateLeft(word, 8, 32, T(0xffffffff))] is read as the spec
    describes it: the low [bits] bits of [value] rotated left by [rotate]
    positions, the result masked with [mask]. *)
Definition RotateLeft (value rotate bits mask : Z) : Z :=
  Z.land (Z.lor (shl value rotate) (shr value (bits - rotate))) mask.

Definition RotWord (word : Z) : Z := RotateLeft word 8 32 0xffffffff.

(** ** The bytes of a word, as the specification names them *)

Definition byte3 (w : Z) : Z := w / 2 ^ 24.
Definition byte2 (w : Z) : Z := (w / 2 ^ 16) mod 2 ^ 8.
Definition byte1 (w : Z) : Z := (w / 2 ^ 8) mod 2 ^ 8.
Definition byte0 (w : Z) : Z := w mod 2 ^ 8.

(** The big-endian word made of four octets. *)
Definition be32 (b0 b1 b2 b3 : Z) : Z :=
  b0 * 2 ^ 24 + b1 * 2 ^ 16 + b2 * 2 ^ 8 + b3.

(** Four octets packed the way the source packs them. *)
Definition pack (b0 b1 b2 b3 : Z) : Z :=
  Z.lor (Z.lor (Z.lor (shl b0 24) (shl b1 16)) (shl b2 8)) b3.

(** * The word primitives of aes_utilities.h *)

(** The constant arrays of aes_tables.h.  That header is not among the
    sources, so its arrays are parameters of the primitives: [Sbox] and
    [InverseSbox] hold octets, [Enc0]..[Enc3] and [Dec0]..[Dec3] hold
    32-bit words, and each is indexed by an octet.  (A [static_cast<T>] of
    an entry to the word type keeps its value and is left implicit.) *)
Record Tables : Type := mkTables {
  Sbox : Z -> Z;
  InverseSbox : Z -> Z;
  Enc0 : Z -> Z;
  Enc1 : Z -> Z;
  Enc2 : Z -> Z;
  Enc3 : Z -> Z;
  Dec0 : Z -> Z;
  Dec1 : Z -> Z;
  Dec2 : Z -> Z;
  Dec3 : Z -> Z
}.

(** The element types of the arrays. *)
Record TablesTyped (tb : Tables) : Prop := mkTablesTyped {
  Sbox_u8 : forall b, byte_range b -> byte_range (Sbox tb b);
  InverseSbox_u8 : forall b, byte_range b -> byte_range (InverseSbox tb b);
  Enc0_u32 : forall b, byte_range b -> word_range (Enc0 tb b);
  Enc1_u32 : forall b, byte_range b -> word_range (Enc1 tb b);
  Enc2_u32 : forall b, byte_range b -> word_range (Enc2 tb b);
  Enc3_u32 : forall b, byte_range b -> word_range (Enc3 tb b);
  Dec0_u32 : forall b, byte_range b -> word_range (Dec0 tb b);
  Dec1_u32 : forall b, byte_range b -> word_range (Dec1 tb b);
  Dec2_u32 : forall b, byte_range b -> word_range (Dec2 tb b);
  Dec3_u32 : forall b, byte_range b -> word_range (Dec3 tb b)
}.

(** The state array [T state[4]]: one word per column. *)
Record State : Type := mkState { col0 : Z; col1 : Z; col2 : Z; col3 : Z }.

Definition sel (state : State) (i : Z) : Z :=
  match i with
  | 0 => col0 state
  | 1 => col1 state
  | 2 => col2 state
  | _ => col3 state
  end.

Definition state_range (s : State) : Prop :=
  word_range (col0 s) /\ word_range (col1 s) /\
  word_range (col2 s) /\ word_range (col3 s).

(** [(k + column) % 4] at type [std::size_t]. *)
Definition rot_index (k column : Z) : Z := usize (k + column) mod 4.

Section Primitives.

Context (tb : Tables).

Definition SubBytes (value : Z) : Z :=
  Z.lor (Z.lor (Z.lor
    (shl (Sbox tb (Z.land (shr value 24) 0xff)) 24)
    (shl (Sbox tb (Z.land (shr value 16) 0xff)) 16))
    (shl (Sbox tb (Z.land (shr value 8) 0xff)) 8))
    (Sbox tb (Z.land value 0xff)).

Definition SubBytesShiftRows (column : Z) (state : State) : Z :=
  Z.lor (Z.lor (Z.lor
    (shl (Sbox tb (Z.land (shr (sel state (rot_index 0 column)) 24) 0xff)) 24)
    (shl (Sbox tb (Z.land (shr (sel state (rot_index 1 column)) 16) 0xff)) 16))
    (shl (Sbox tb (Z.land (shr (sel state (rot_index 2 column)) 8) 0xff)) 8))
    (Sbox tb (Z.land (sel state (rot_index 3 column)) 0xff)).

Definition InvSubBytesShiftRows (column : Z) (state : State) : Z :=
  Z.lor (Z.lor (Z.lor
    (shl (InverseSbox tb (Z.land (shr (sel state (rot_index 0 column)) 24) 0xff)) 24)
    (shl (InverseSbox tb (Z.land (shr (sel state (rot_index 3 column)) 16) 0xff)) 16))
    (shl (InverseSbox tb (Z.land (shr (sel state (rot_index 2 column)) 8) 0xff)) 8))
    (InverseSbox tb (Z.land (sel state (rot_index 1 column)) 0xff)).

Definition AddRoundKey (x y : Z) : Z := Z.lxor x y.

Definition MixColShiftRow (column : Z) (state : State) : Z :=
  Z.lxor (Z.lxor (Z.lxor
    (Enc0 tb (Z.land (shr (sel state (rot_index 0 column)) 24) 0xff))
    (Enc1 tb (Z.land (shr (sel state (rot_index 1 column)) 16) 0xff)))
    (Enc2 tb (Z.land (shr (sel state (rot_index 2 column)) 8) 0xff)))
    (Enc3 tb (Z.land (sel state (rot_index 3 column)) 0xff)).

Definition FastInvMixColumn (value : Z) : Z :=
  Z.lxor (Z.lxor (Z.lxor
    (Dec0 tb (Sbox tb (Z.land (shr value 24) 0xff)))
    (Dec1 tb (Sbox tb (Z.land (shr value 16) 0xff))))
    (Dec2 tb (Sbox tb (Z.land (shr value 8) 0xff))))
    (Dec3 tb (Sbox tb (Z.land value 0xff))).

Definition InvMixColShiftRow (column : Z) (state : State) : Z :=
  Z.lxor (Z.lxor (Z.lxor
    (Dec0 tb (Z.land (shr (sel state (rot_index 0 column)) 24) 0xff))
    (Dec1 tb (Z.land (shr (sel state (rot_index 3 column)) 16) 0xff)))
    (Dec2 tb (Z.land (shr (sel state (rot_index 2 column)) 8) 0xff)))
    (Dec3 tb (Z.land (sel state (rot_index 1 column)) 0xff)).

End Primitives.

(** ** InvShiftRows of FIPS 197 on a column-major state

    Row r of column c is byte (3 - r) of the column's word.  InvShiftRows
    moves row r of column (c - r) mod 4 into column c. *)

Definition InvShiftRows_col (s : State) (c : Z) : Z :=
  pack (byte3 (sel s (c mod 4))) (byte2 (sel s ((c - 1) mod 4)))
       (byte1 (sel s ((c - 2) mod 4))) (byte0 (sel s ((c - 3) mod 4))).

(** * cpu_check.cpp *)

(** [INTEL_AES_BIT]: [std::uint32_t(1) << 25]. *)
Definition INTEL_AES_BIT : Z := u32 (Z.shiftl 1 25).

(** The three hosts the file distinguishes: [_WIN32], [__linux__], and
    neither of them. *)
Inductive Host : Type := Win32 | Linux | OtherHost.

(** What the preprocessor sees.  intel_intrinsics.h defines
    [TERRA_USE_INTEL_AES_INTRINSICS] when the build enables the intrinsics
    and the target is x86-64, unless the build has defined it already. *)
Record Build : Type := mkBuild {
  enable_intrinsics : bool;   (* TERRA_ENABLE_INTEL_AES_INTRINSICS *)
  target_x86_64 : bool;       (* __x86_64__, _M_IA64, __IA64__ or _M_AMD64 *)
  use_predefined : bool;      (* TERRA_USE_INTEL_AES_INTRINSICS given by the build *)
  host : Host
}.

Definition TERRA_USE_INTEL_AES_INTRINSICS (b : Build) : bool :=
  use_predefined b || (enable_intrinsics b && target_x86_64 b).

(** The registers one CPUID query fills in, as the values of the variables
    the source reads them into ([int] on Windows, [std::uint32_t]
    elsewhere). *)
Record Regs : Type := mkRegs { eax : Z; ebx : Z; ecx : Z; edx : Z }.

(** The CPUID instruction, an oracle from the function id to the
    registers. *)
Definition Cpuid : Type := Z -> Regs.

(** The Windows variant: [cpu_info] is an array of [int]; in
    [cpu_info[2] & INTEL_AES_BIT] the [int] is converted to
    [unsigned int]. *)
Definition CPUSupportsAES_NI_win32 (cpuid : Cpuid) : bool :=
  if eax (cpuid 0) <? 1 then false
  else negb (Z.land (u32 (ecx (cpuid 1))) INTEL_AES_BIT =? 0).

(** The Linux variant ([__cpuid] of cpuid.h) and the variant with inline
    assembly read the registers into [std::uint32_t] variables and are
    otherwise the same text. *)
Definition CPUSupportsAES_NI_linux (cpuid : Cpuid) : bool :=
  if eax (cpuid 0) <? 1 then false
  else negb (Z.land (ecx (cpuid 1)) INTEL_AES_BIT =? 0).

Definition CPUSupportsAES_NI_asm (cpuid : Cpuid) : bool :=
  if eax (cpuid 0) <? 1 then false
  else negb (Z.land (ecx (cpuid 1)) INTEL_AES_BIT =? 0).

Definition CPUSupportsAES_NI (b : Build) (cpuid : Cpuid) : bool :=
  if TERRA_USE_INTEL_AES_INTRINSICS b then
    match host b with
    | Win32 => CPUSupportsAES_NI_win32 cpuid
    | Linux => CPUSupportsAES_NI_linux cpuid
    | OtherHost => CPUSupportsAES_NI_asm cpuid
    end
  else false.

(** * The arithmetic of FIPS 197 *)

(** Multiplication by x in GF(2^8) modulo x^8 + x^4 + x^3 + x + 1 (0x11B). *)
Definition xtime (b : Z) : Z :=
  Z.lxor (Z.land (Z.shiftl b 1) 0xff) (if Z.testbit b 7 then 0x1b else 0).

(** The product of [a] by the octet [c], one bit of [c] at a time. *)
Fixpoint gmul_bits (n : nat) (a c : Z) : Z :=
  match n with
  | O => 0
  | S n' =>
      Z.lxor (if Z.odd c then a else 0) (gmul_bits n' (xtime a) (Z.shiftr c 1))
  end.

Definition gmul (a c : Z) : Z := gmul_bits 8 a c.

(** MixColumns and InvMixColumns on one column held in a word, row 0 in
    the most significant octet (FIPS 197, 5.1.3 and 5.3.3). *)
Definition MixColumns (w : Z) : Z :=
  let a0 := Z.land (shr w 24) 0xff in
  let a1 := Z.land (shr w 16) 0xff in
  let a2 := Z.land (shr w 8) 0xff in
  let a3 := Z.land w 0xff in
  pack (Z.lxor (Z.lxor (Z.lxor (gmul a0 2) (gmul a1 3)) a2) a3)
       (Z.lxor (Z.lxor (Z.lxor a0 (gmul a1 2)) (gmul a2 3)) a3)
       (Z.lxor (Z.lxor (Z.lxor a0 a1) (gmul a2 2)) (gmul a3 3))
       (Z.lxor (Z.lxor (Z.lxor (gmul a0 3) a1) a2) (gmul a3 2)).

Definition InvMixColumns (w : Z) : Z :=
  let a0 := Z.land (shr w 24) 0xff in
  let a1 := Z.land (shr w 16) 0xff in
  let a2 := Z.land (shr w 8) 0xff in
  let a3 := Z.land w 0xff in
  pack (Z.lxor (Z.lxor (Z.lxor (gmul a0 0x0e) (gmul a1 0x0b)) (gmul a2 0x0d)) (gmul a3 0x09))
       (Z.lxor (Z.lxor (Z.lxor (gmul a0 0x09) (gmul a1 0x0e)) (gmul a2 0x0b)) (gmul a3 0x0d))
       (Z.lxor (Z.lxor (Z.lxor (gmul a0 0x0d) (gmul a1 0x09)) (gmul a2 0x0e)) (gmul a3 0x0b))
       (Z.lxor (Z.lxor (Z.lxor (gmul a0 0x0b) (gmul a1 0x0d)) (gmul a2 0x09)) (gmul a3 0x0e)).

(** Rotations of a 32-bit word. *)
Definition rotl32 (w n : Z) : Z := Z.lor (shl w n) (shr w (32 - n)).
Definition rotr32 (w n : Z) : Z := Z.lor (shr w n) (shl w (32 - n)).

(** The words the T-tables are built from (spec, 4.1): for an S-box value
    [s] the word (2.s, s, s, 3.s), and for an inverse S-box value the word
    (0e.s, 09.s, 0d.s, 0b.s), first octet most significant. *)
Definition enc_base (s : Z) : Z := pack (gmul s 2) s s (gmul s 3).
Definition dec_base (s : Z) : Z :=
  pack (gmul s 0x0e) (gmul s 0x09) (gmul s 0x0d) (gmul s 0x0b).

(** * The constant tables *)

(** Modelled from the spec: the forward S-box of aes_tables.h, "the FIPS
    197 affine-over-GF(2^8) substitution table": the inverse in GF(2^8)
    (0 for 0) followed by the affine map with constant 0x63. *)
Definition gf_inv (a : Z) : Z :=
  let a2 := gmul a a in
  let a4 := gmul a2 a2 in
  let a8 := gmul a4 a4 in
  let a16 := gmul a8 a8 in
  let a32 := gmul a16 a16 in
  let a64 := gmul a32 a32 in
  let a128 := gmul a64 a64 in
  gmul a2 (gmul a4 (gmul a8 (gmul a16 (gmul a32 (gmul a64 a128))))).

Definition rotl8 (x n : Z) : Z :=
  Z.land (Z.lor (Z.shiftl x n) (Z.shiftr x (8 - n))) 0xff.

Definition sbox_fips (b : Z) : Z :=
  let x := gf_inv b in
  Z.lxor (Z.lxor (Z.lxor (Z.lxor (Z.lxor x (rotl8 x 1)) (rotl8 x 2))
    (rotl8 x 3)) (rotl8 x 4)) 0x63.

Definition octets : list Z := map Z.of_nat (seq 0 256).

Definition Sbox_table : list Z := Eval vm_compute in map sbox_fips octets.

(** Modelled from the spec: "the inverse S-box is its compositional
    inverse": entry [b] is the index at which [Sbox_table] holds [b]. *)
Definition index_of (b : Z) (t : list Z) : Z :=
  match list_find (Z.eqb b) t with
  | Some (i, _) => Z.of_nat i
  | None => 0
  end.

Definition InverseSbox_table : list Z :=
  Eval vm_compute in map (fun b => index_of b Sbox_table) octets.

Definition table_get (t : list Z) (i : Z) : Z := nth (Z.to_nat i) t 0.

(** Modelled from the spec: the T-tables of aes_tables.h, built from the
    S-boxes and the base words of section 4.1.  The words are rotated to
    the right by 8.k, which makes Enc_k[b] the MixColumns of the column
    holding S[b] in row k and Dec_k[b] the InvMixColumns of the column
    holding InverseSbox[b] in row k: what the comments of MixColShiftRow,
    InvMixColShiftRow and FastInvMixColumn say the tables hold, and what
    the vectors of FIPS 197 require. *)
Definition fips_tables : Tables := {|
  Sbox := table_get Sbox_table;
  InverseSbox := table_get InverseSbox_table;
  Enc0 := fun b => rotr32 (enc_base (table_get Sbox_table b)) 0;
  Enc1 := fun b => rotr32 (enc_base (table_get Sbox_table b)) 8;
  Enc2 := fun b => rotr32 (enc_base (table_get Sbox_table b)) 16;
  Enc3 := fun b => rotr32 (enc_base (table_get Sbox_table b)) 24;
  Dec0 := fun b => rotr32 (dec_base (table_get InverseSbox_table b)) 0;
  Dec1 := fun b => rotr32 (dec_base (table_get InverseSbox_table b)) 8;
  Dec2 := fun b => rotr32 (dec_base (table_get InverseSbox_table b)) 16;
  Dec3 := fun b => rotr32 (dec_base (table_get InverseSbox_table b)) 24
|}.

(** What the cipher needs of the tables: the two S-boxes are inverse
    permutations of the octets, and the T-tables are the right rotations
    of the base words. *)
Record TablesFIPS (tb : Tables) : Prop := mkTablesFIPS {
  fips_Sbox_u8 : forall b, byte_range b -> byte_range (Sbox tb b);
  fips_InverseSbox_u8 : forall b, byte_range b -> byte_range (InverseSbox tb b);
  fips_Inverse_Sbox : forall b, byte_range b -> InverseSbox tb (Sbox tb b) = b;
  fips_Sbox_Inverse : forall b, byte_range b -> Sbox tb (InverseSbox tb b) = b;
  fips_Enc0 : forall b, byte_range b -> Enc0 tb b = rotr32 (enc_base (Sbox tb b)) 0;
  fips_Enc1 : forall b, byte_range b -> Enc1 tb b = rotr32 (enc_base (Sbox tb b)) 8;
  fips_Enc2 : forall b, byte_range b -> Enc2 tb b = rotr32 (enc_base (Sbox tb b)) 16;
  fips_Enc3 : forall b, byte_range b -> Enc3 tb b = rotr32 (enc_base (Sbox tb b)) 24;
  fips_Dec0 : forall b, byte_range b -> Dec0 tb b = rotr32 (dec_base (InverseSbox tb b)) 0;
  fips_Dec1 : forall b, byte_range b -> Dec1 tb b = rotr32 (dec_base (InverseSbox tb b)) 8;
  fips_Dec2 : forall b, byte_range b -> Dec2 tb b = rotr32 (dec_base (InverseSbox tb b)) 16;
  fips_Dec3 : forall b, byte_range b -> Dec3 tb b = rotr32 (dec_base (InverseSbox tb b)) 24
}.

(** * Key schedule and block engine

    The file that holds the key expansion and the Encrypt and Decrypt
    routines is not among the sources; they are modelled from sections 3,
    4.3 and 4.4 of the specification on top of the primitives above. *)

Inductive Variant : Type := AES128 | AES192 | AES256.

Definition Nb : nat := 4.

Definition Nk (v : Variant) : nat :=
  match v with AES128 => 4 | AES192 => 6 | AES256 => 8 end%nat.

Definition Nr (v : Variant) : nat :=
  match v with AES128 => 10 | AES192 => 12 | AES256 => 14 end%nat.

(** Modelled from the spec: a key of 16, 24 or 32 octets selects the
    variant; any other length is rejected (InvalidKeyLength). *)
Definition variant_of_length (n : nat) : option Variant :=
  match n with
  | 16 => Some AES128
  | 24 => Some AES192
  | 32 => Some AES256
  | _ => None
  end%nat.

(** Modelled from the spec: Rcon[i], for i >= 1, is the octet x^(i-1) of
    GF(2^8) in the high byte of a word. *)
Fixpoint xpow (n : nat) : Z :=
  match n with
  | O => 1
  | S n' => xtime (xpow n')
  end.

Definition Rcon (i : nat) : Z := shl (xpow (i - 1)) 24.

(** [W[i]], for an index inside the schedule. *)
Definition word_at (W : list Z) (i : nat) : Z := default 0 (W !! i).

Section Engine.

Context (tb : Tables).

(** Modelled from the spec (4.3, forward expansion): the word W[i], for
    i >= Nk, from the words before it. *)
Definition next_word (nk : nat) (W : list Z) (i : nat) : Z :=
  let temp := word_at W (i - 1) in
  let temp :=
    if (i mod nk =? 0)%nat then
      Z.lxor (SubBytes tb (RotWord temp)) (Rcon (i / nk))
    else if ((nk =? 8) && (i mod nk =? 4))%nat then SubBytes tb temp
    else temp in
  Z.lxor (word_at W (i - nk)) temp.

Fixpoint expand (nk n : nat) (W : list Z) : list Z :=
  match n with
  | O => W
  | S n' => expand nk n' (W ++ [next_word nk W (length W)])
  end.

(** Modelled from the spec (4.3): W[i] = LoadWord(key, i) for i < Nk, then
    the expansion up to (Nr+1).Nb words. *)
Definition load_words (buffer : list Z) (n : nat) : option (list Z) :=
  mapM (fun i => GetWordFromBuffer buffer (Z.of_nat i)) (seq 0 n).

Definition KeyExpansion (v : Variant) (key : list Z) : option (list Z) :=
  W ← load_words key (Nk v);
  Some (expand (Nk v) ((Nr v + 1) * Nb - Nk v) W).

(** Modelled from the spec (4.3, inverse expansion): the words of rounds
    1 .. Nr-1 are replaced by their FastInvMixColumn; rounds 0 and Nr keep
    the words of the forward schedule. *)
Definition InverseExpansion (nr : nat) (W : list Z) : list Z :=
  imap (fun i w =>
          if ((0 <? i / 4) && (i / 4 <? nr))%nat then FastInvMixColumn tb w
          else w) W.

(** Modelled from the spec (3, engine state): the variant and the two
    schedules of the software backend. *)
Record Engine : Type := mkEngine {
  variant : Variant;
  forward_schedule : list Z;
  inverse_schedule : list Z
}.

(** Modelled from the spec (6): Construct and SetKey; [None] stands for
    InvalidKeyLength. *)
Definition SetKey (key : list Z) : option Engine :=
  v ← variant_of_length (length key);
  W ← KeyExpansion v key;
  Some (mkEngine v W (InverseExpansion (Nr v) W)).

(** Modelled from the spec (4.4): loading and storing the state. *)
Definition load_state (block : list Z) : option State :=
  s0 ← GetWordFromBuffer block 0;
  s1 ← GetWordFromBuffer block 1;
  s2 ← GetWordFromBuffer block 2;
  s3 ← GetWordFromBuffer block 3;
  Some (mkState s0 s1 s2 s3).

Definition store_state (s : State) : option (list Z) :=
  o0 ← PutStateColumn (col0 s) 0 (replicate 16 0);
  o1 ← PutStateColumn (col1 s) 1 o0;
  o2 ← PutStateColumn (col2 s) 2 o1;
  PutStateColumn (col3 s) 3 o2.

(** The round key of round [r]: the words [4r .. 4r+3] of a schedule. *)
Definition round_key (W : list Z) (r : nat) : State :=
  mkState (word_at W (4 * r)) (word_at W (4 * r + 1))
          (word_at W (4 * r + 2)) (word_at W (4 * r + 3)).

Definition add_round_key (s k : State) : State :=
  mkState (AddRoundKey (col0 s) (col0 k)) (AddRoundKey (col1 s) (col1 k))
          (AddRoundKey (col2 s) (col2 k)) (AddRoundKey (col3 s) (col3 k)).

(** Modelled from the spec (4.4, Encrypt): t[c] = MixColShiftRow(c, s)
    XOR W[4r+c] in rounds 1 .. Nr-1, and t[c] = SubBytesShiftRows(c, s)
    XOR W[4Nr+c] in the final round. *)
Definition enc_round (W : list Z) (r : nat) (s : State) : State :=
  add_round_key
    (mkState (MixColShiftRow tb 0 s) (MixColShiftRow tb 1 s)
             (MixColShiftRow tb 2 s) (MixColShiftRow tb 3 s))
    (round_key W r).

Fixpoint enc_rounds (W : list Z) (n : nat) (s : State) : State :=
  match n with
  | O => s
  | S n' => enc_round W (S n') (enc_rounds W n' s)
  end.

Definition enc_final (W : list Z) (r : nat) (s : State) : State :=
  add_round_key
    (mkState (SubBytesShiftRows tb 0 s) (SubBytesShiftRows tb 1 s)
             (SubBytesShiftRows tb 2 s) (SubBytesShiftRows tb 3 s))
    (round_key W r).

Definition Encrypt (e : Engine) (block_in : list Z) : option (list Z) :=
  if decide (length block_in = 16%nat) then
    s ← load_state block_in;
    let W := forward_schedule e in
    let nr := Nr (variant e) in
    let s := add_round_key s (round_key W 0) in
    let s := enc_rounds W (nr - 1) s in
    let s := enc_final W nr s in
    store_state s
  else None.

(** Modelled from the spec (4.4, Decrypt): round 0 adds the last round
    key, rounds Nr-1 down to 1 are t[c] = InvMixColShiftRow(c, s) XOR
    W'[4r+c], the final round is t[c] = InvSubBytesShiftRows(c, s) XOR
    W'[c]. *)
Definition dec_round (W' : list Z) (r : nat) (s : State) : State :=
  add_round_key
    (mkState (InvMixColShiftRow tb 0 s) (InvMixColShiftRow tb 1 s)
             (InvMixColShiftRow tb 2 s) (InvMixColShiftRow tb 3 s))
    (round_key W' r).

Fixpoint dec_rounds (W' : list Z) (r : nat) (s : State) : State :=
  match r with
  | O => s
  | S r' => dec_rounds W' r' (dec_round W' (S r') s)
  end.

Definition dec_final (W' : list Z) (s : State) : State :=
  add_round_key
    (mkState (InvSubBytesShiftRows tb 0 s) (InvSubBytesShiftRows tb 1 s)
             (InvSubBytesShiftRows tb 2 s) (InvSubBytesShiftRows tb 3 s))
    (round_key W' 0).

Definition Decrypt (e : Engine) (block_in : list Z) : option (list Z) :=
  if decide (length block_in = 16%nat) then
    s ← load_state block_in;
    let W' := inverse_schedule e in
    let nr := Nr (variant e) in
    let s := add_round_key s (round_key W' nr) in
    let s := dec_rounds W' (nr - 1) s in
    let s := dec_final W' s in
    store_state s
  else None.

End Engine.

(** The test vectors of FIPS 197, Appendix C (spec, 8). *)
Definition fips_plaintext : list Z :=
  [0x00; 0x11; 0x22; 0x33; 0x44; 0x55; 0x66; 0x77;
   0x88; 0x99; 0xaa; 0xbb; 0xcc; 0xdd; 0xee; 0xff].

Definition fips_key (n : nat) : list Z := map Z.of_nat (seq 0 n).

Definition fips_cipher128 : list Z :=
  [0x69; 0xc4; 0xe0; 0xd8; 0x6a; 0x7b; 0x04; 0x30;
   0xd8; 0xcd; 0xb7; 0x80; 0x70; 0xb4; 0xc5; 0x5a].

Definition fips_cipher192 : list Z :=
  [0xdd; 0xa9; 0x7c; 0xa4; 0x86; 0x4c; 0xdf; 0xe0;
   0x6e; 0xaf; 0x70; 0xa0; 0xec; 0x0d; 0x71; 0x91].

Definition fips_cipher256 : list Z :=
  [0x8e; 0xa2; 0xb7; 0xca; 0x51; 0x67; 0x45; 0xbf;
   0xea; 0xfc; 0x49; 0x90; 0x4b; 0x49; 0x60; 0x89].

(** * Notions used to state the facts on the rounds *)

Definition map_state (f : Z -> Z) (s : State) : State :=
  mkState (f (col0 s)) (f (col1 s)) (f (col2 s)) (f (col3 s)).

(** SubBytes and ShiftRows on the whole state, and their inverses: the
    final rounds without the round key. *)
Definition sub_shift (tb : Tables) (s : State) : State :=
  mkState (SubBytesShiftRows tb 0 s) (SubBytesShiftRows tb 1 s)
          (SubBytesShiftRows tb 2 s) (SubBytesShiftRows tb 3 s).

Definition inv_sub_shift (tb : Tables) (s : State) : State :=
  mkState (InvSubBytesShiftRows tb 0 s) (InvSubBytesShiftRows tb 1 s)
          (InvSubBytesShiftRows tb 2 s) (InvSubBytesShiftRows tb 3 s).

(** The sixteen octets of a state, column by column, most significant
    octet first. *)
Definition octets_of_word (w : Z) : list Z := [byte3 w; byte2 w; byte1 w; byte0 w].

Definition octets_of_state (s : State) : list Z :=
  octets_of_word (col0 s) ++ octets_of_word (col1 s) ++
  octets_of_word (col2 s) ++ octets_of_word (col3 s).

(** A decidable check of a predicate on every octet. *)
Definition all_octets (p : Z -> bool) : bool := forallb p octets.

(** A state to try the primitives on: the columns of the FIPS 197
    plaintext. *)
Definition sample_state : State :=
  mkState 0x00112233 0x44556677 0x8899aabb 0xccddeeff.

(** * Further notions for the properties of the primitives *)

(** ShiftRows of FIPS 197 on a column-major state: row r of column
    (c + r) mod 4 moves into column c. *)
Definition ShiftRows_col (s : State) (c : Z) : Z :=
  pack (byte3 (sel s (c mod 4))) (byte2 (sel s ((c + 1) mod 4)))
       (byte1 (sel s ((c + 2) mod 4))) (byte0 (sel s ((c + 3) mod 4))).

(** [n] applications of a function. *)
Fixpoint iterate (n : nat) (f : Z -> Z) (x : Z) : Z :=
  match n with
  | O => x
  | S n' => f (iterate n' f x)
  end.

(** A 32-bit register pattern read as an [int], the way the Windows
    intrinsic [__cpuid] hands the registers over. *)
Definition as_int (r : Z) : Z := if r <? 2 ^ 31 then r else r - 2 ^ 32.

Definition cpuid_as_int (cpuid : Cpuid) : Cpuid :=
  fun leaf =>
    mkRegs (as_int (eax (cpuid leaf))) (as_int (ebx (cpuid leaf)))
           (as_int (ecx (cpuid leaf))) (as_int (edx (cpuid leaf))).

(** Writing the four columns of a state into a buffer, one
    [PutStateColumn] per column. *)
Definition put_columns (s : State) (out : list Z) : option (list Z) :=
  o0 ← PutStateColumn (col0 s) 0 out;
  o1 ← PutStateColumn (col1 s) 1 o0;
  o2 ← PutStateColumn (col2 s) 2 o1;
  PutStateColumn (col3 s) 3 o2.

(** * Facts on machine integers *)

Lemma byte_range_u8 x : byte_range (u8 x).
Proof. unfold byte_range, u8. apply Z.mod_pos_bound. lia. Qed.

Lemma word_range_u32 x : word_range (u32 x).
Proof. unfold word_range, u32. apply Z.mod_pos_bound. lia. Qed.

Lemma u8_small b : byte_range b -> u8 b = b.
Proof. unfold byte_range, u8. intros. apply Z.mod_small. lia. Qed.

Lemma u32_small w : word_range w -> u32 w = w.
Proof. unfold word_range, u32. intros. apply Z.mod_small. lia. Qed.

Lemma usize_small x : 0 <= x < 2 ^ 64 -> usize x = x.
Proof. unfold usize. intros. apply Z.mod_small. lia. Qed.

Lemma at_col_small column k :
  0 <= column -> 0 <= k -> 4 * column + k < 2 ^ 64 ->
  at_col column k = 4 * column + k.
Proof.
  intros Hc Hk Hlt. unfold at_col. rewrite Z.shiftl_mul_pow2 by lia.
  change (2 ^ 2) with 4.
  rewrite (usize_small (column * 4)) by lia. rewrite usize_small; lia.
Qed.

(** Bit-level reading of the range predicates. *)
Lemma byte_range_land b : byte_range b -> b = Z.land b (Z.ones 8).
Proof. unfold byte_range. intros. rewrite Z.land_ones by lia. symmetry. apply Z.mod_small. lia. Qed.

Lemma word_range_land w : word_range w -> w = Z.land w (Z.ones 32).
Proof. unfold word_range. intros. rewrite Z.land_ones by lia. symmetry. apply Z.mod_small. lia. Qed.

Lemma land_ones_range n x : 0 <= n -> 0 <= Z.land x (Z.ones n) < 2 ^ n.
Proof. intros. rewrite Z.land_ones by lia. apply Z.mod_pos_bound. lia. Qed.

Lemma byte_mask_range x : byte_range (Z.land x 0xff).
Proof. unfold byte_range. change 0xff with (Z.ones 8). apply land_ones_range. lia. Qed.

(** The four octets the source extracts from a word are the bytes the
    specification names. *)
Lemma byte3_shr w : word_range w -> Z.land (shr w 24) 0xff = byte3 w.
Proof.
  unfold word_range, shr, byte3. intros Hw.
  rewrite Z.shiftr_div_pow2 by lia. change 0xff with (Z.ones 8).
  rewrite Z.land_ones by lia. apply Z.mod_small.
  split; [apply Z.div_pos; lia | apply Z.div_lt_upper_bound; lia].
Qed.

Lemma byte2_shr w : Z.land (shr w 16) 0xff = byte2 w.
Proof.
  unfold shr, byte2. rewrite Z.shiftr_div_pow2 by lia.
  change 0xff with (Z.ones 8). now rewrite Z.land_ones by lia.
Qed.

Lemma byte1_shr w : Z.land (shr w 8) 0xff = byte1 w.
Proof.
  unfold shr, byte1. rewrite Z.shiftr_div_pow2 by lia.
  change 0xff with (Z.ones 8). now rewrite Z.land_ones by lia.
Qed.

Lemma byte0_land w : Z.land w 0xff = byte0 w.
Proof. unfold byte0. change 0xff with (Z.ones 8). now rewrite Z.land_ones by lia. Qed.

Lemma pack_be32 b0 b1 b2 b3 :
  byte_range b0 -> byte_range b1 -> byte_range b2 -> byte_range b3 ->
  pack b0 b1 b2 b3 = be32 b0 b1 b2 b3.
Proof.
  intros H0 H1 H2 H3. unfold pack, be32, shl, u32.
  rewrite (byte_range_land _ H0), (byte_range_land _ H1),
    (byte_range_land _ H2), (byte_range_land _ H3).
  rewrite <- !Z.shiftl_mul_pow2 by lia.
  rewrite <- !Z.land_ones by lia.
  set (x0 := Z.land b0 (Z.ones 8)). set (x1 := Z.land b1 (Z.ones 8)).
  set (x2 := Z.land b2 (Z.ones 8)). set (x3 := Z.land b3 (Z.ones 8)).
  rewrite <- (Z.or_to_plus (Z.shiftl x0 24) (Z.shiftl x1 16))
    by (subst x0 x1; Z.bitblast).
  rewrite <- (Z.or_to_plus _ (Z.shiftl x2 8)) by (subst x0 x1 x2; Z.bitblast).
  rewrite <- (Z.or_to_plus _ x3) by (subst x0 x1 x2 x3; Z.bitblast).
  subst x0 x1 x2 x3. Z.bitblast.
Qed.

Lemma shl_byte b n : byte_range b -> 0 <= n <= 24 -> shl b n = b * 2 ^ n.
Proof.
  unfold byte_range, shl, u32. intros Hb Hn.
  rewrite Z.shiftl_mul_pow2 by lia. apply Z.mod_small.
  assert (2 ^ n <= 2 ^ 24) by (apply Z.pow_le_mono_r; lia).
  assert (0 < 2 ^ n) by (apply Z.pow_pos_nonneg; lia). nia.
Qed.

Lemma pack_bytes w :
  word_range w -> pack (byte3 w) (byte2 w) (byte1 w) (byte0 w) = w.
Proof.
  intros Hw. rewrite <- (byte3_shr w Hw), <- byte2_shr, <- byte1_shr, <- byte0_land.
  rewrite (word_range_land w Hw). unfold pack, shl, shr, u32.
  change 0xff with (Z.ones 8). rewrite <- !Z.land_ones by lia.
  Z.bitblast; Z.bitblast_core.
Qed.

(** A word is the pack of the four octets the source extracts from it. *)
Lemma pack_octets w :
  word_range w ->
  pack (Z.land (shr w 24) 0xff) (Z.land (shr w 16) 0xff)
       (Z.land (shr w 8) 0xff) (Z.land w 0xff) = w.
Proof.
  intros Hw. rewrite byte3_shr, byte2_shr, byte1_shr, byte0_land by assumption.
  now apply pack_bytes.
Qed.

Lemma range_land n x : 0 <= n -> 0 <= x < 2 ^ n -> x = Z.land x (Z.ones n).
Proof. intros. rewrite Z.land_ones by lia. symmetry. apply Z.mod_small. lia. Qed.

Lemma lor_range n a b :
  0 <= n -> 0 <= a < 2 ^ n -> 0 <= b < 2 ^ n -> 0 <= Z.lor a b < 2 ^ n.
Proof.
  intros Hn Ha Hb. rewrite (range_land n a), (range_land n b) by assumption.
  rewrite <- Z.land_lor_distr_l. now apply land_ones_range.
Qed.

Lemma lxor_range n a b :
  0 <= n -> 0 <= a < 2 ^ n -> 0 <= b < 2 ^ n -> 0 <= Z.lxor a b < 2 ^ n.
Proof.
  intros Hn Ha Hb. rewrite (range_land n a), (range_land n b) by assumption.
  replace (Z.lxor (Z.land a (Z.ones n)) (Z.land b (Z.ones n)))
    with (Z.land (Z.lxor a b) (Z.ones n)) by Z.bitblast.
  now apply land_ones_range.
Qed.

Lemma word_range_lor a b : word_range a -> word_range b -> word_range (Z.lor a b).
Proof. apply lor_range. lia. Qed.

Lemma word_range_lxor a b : word_range a -> word_range b -> word_range (Z.lxor a b).
Proof. apply lxor_range. lia. Qed.

Lemma byte_range_lxor a b : byte_range a -> byte_range b -> byte_range (Z.lxor a b).
Proof. apply lxor_range. lia. Qed.

Lemma byte_word_range b : byte_range b -> word_range b.
Proof. unfold byte_range, word_range. lia. Qed.

Lemma word_range_shl x n : word_range (shl x n).
Proof. apply word_range_u32. Qed.

Lemma pack_range b0 b1 b2 b3 : byte_range b3 -> word_range (pack b0 b1 b2 b3).
Proof.
  intros H3. unfold pack.
  auto using word_range_lor, word_range_shl, byte_word_range.
Qed.

(** * Facts on buffers *)

Lemma store_Some buffer i v :
  0 <= i < Z.of_nat (length buffer) ->
  store buffer i v = Some (<[Z.to_nat i := u8 v]> buffer).
Proof. intros Hi. unfold store. rewrite decide_True; [done | lia]. Qed.

Lemma insert4_take_drop (l : list Z) (i : nat) a b c d :
  (i + 4 <= length l)%nat ->
  <[(i + 3)%nat := d]> (<[(i + 2)%nat := c]> (<[(i + 1)%nat := b]> (<[i := a]> l)))
  = take i l ++ [a; b; c; d] ++ drop (i + 4) l.
Proof.
  revert l. induction i as [|i IH]; intros l Hl.
  - destruct l as [|x0 [|x1 [|x2 [|x3 l]]]]; simpl in Hl; try lia. reflexivity.
  - destruct l as [|x l]; simpl in Hl; [lia|].
    simpl. f_equal. apply IH. lia.
Qed.

Lemma insert4_lookup (l : list Z) (i : nat) a b c d (k : nat) :
  (i + 4 <= length l)%nat -> (k < 4)%nat ->
  <[(i + 3)%nat := d]> (<[(i + 2)%nat := c]> (<[(i + 1)%nat := b]> (<[i := a]> l)))
    !! (i + k)%nat = [a; b; c; d] !! k.
Proof.
  intros Hl Hk. rewrite insert4_take_drop by assumption.
  rewrite lookup_app_r by (rewrite length_take; lia).
  rewrite length_take. replace (i + k - i `min` length l)%nat with k by lia.
  apply lookup_app_l. simpl. lia.
Qed.

Lemma PutStateColumn_inserts value column ciphertext :
  0 <= column ->
  4 * column + 4 <= Z.of_nat (length ciphertext) <= 2 ^ 64 ->
  PutStateColumn value column ciphertext =
  Some (<[(Z.to_nat (4 * column) + 3)%nat := byte0 value]>
       (<[(Z.to_nat (4 * column) + 2)%nat := byte1 value]>
       (<[(Z.to_nat (4 * column) + 1)%nat := byte2 value]>
       (<[Z.to_nat (4 * column) := u8 (Z.land (shr value 24) 0xff)]> ciphertext)))).
Proof.
  intros Hc Hlen. unfold PutStateColumn.
  rewrite !at_col_small by lia.
  rewrite store_Some by lia. simpl.
  rewrite store_Some by (rewrite length_insert; lia). simpl.
  rewrite store_Some by (rewrite !length_insert; lia). simpl.
  rewrite store_Some by (rewrite !length_insert; lia).
  rewrite !(u8_small (Z.land _ 0xff)) by apply byte_mask_range.
  rewrite byte2_shr, byte1_shr, byte0_land.
  replace (Z.to_nat (4 * column + 0)) with (Z.to_nat (4 * column)) by lia.
  replace (Z.to_nat (4 * column + 1)) with (Z.to_nat (4 * column) + 1)%nat by lia.
  replace (Z.to_nat (4 * column + 2)) with (Z.to_nat (4 * column) + 2)%nat by lia.
  replace (Z.to_nat (4 * column + 3)) with (Z.to_nat (4 * column) + 3)%nat by lia.
  reflexivity.
Qed.

(** * Claims on the buffer primitives *)

(** C5. For a byte buffer of length at least 4c+4, [GetWordFromBuffer]
    returns buffer[4c]*2^24 | buffer[4c+1]*2^16 | buffer[4c+2]*2^8 |
    buffer[4c+3], which is the big-endian 32-bit word made of the four
    octets at offset 4c.  (A buffer is an object in memory: its length is
    at most 2^64.) *)
Theorem GetWordFromBuffer_big_endian (buffer : list Z) (c : Z) :
  Forall byte_range buffer ->
  0 <= c ->
  4 * c + 4 <= Z.of_nat (length buffer) <= 2 ^ 64 ->
  exists b0 b1 b2 b3,
    buffer !! Z.to_nat (4 * c) = Some b0 /\
    buffer !! Z.to_nat (4 * c + 1) = Some b1 /\
    buffer !! Z.to_nat (4 * c + 2) = Some b2 /\
    buffer !! Z.to_nat (4 * c + 3) = Some b3 /\
    GetWordFromBuffer buffer c =
      Some (Z.lor (Z.lor (Z.lor (b0 * 2 ^ 24) (b1 * 2 ^ 16)) (b2 * 2 ^ 8)) b3) /\
    Z.lor (Z.lor (Z.lor (b0 * 2 ^ 24) (b1 * 2 ^ 16)) (b2 * 2 ^ 8)) b3
      = be32 b0 b1 b2 b3 /\
    word_range (be32 b0 b1 b2 b3).
Proof.
  intros Hbytes Hc Hlen.
  destruct (lookup_lt_is_Some_2 buffer (Z.to_nat (4 * c))) as [b0 E0]; [lia|].
  destruct (lookup_lt_is_Some_2 buffer (Z.to_nat (4 * c + 1))) as [b1 E1]; [lia|].
  destruct (lookup_lt_is_Some_2 buffer (Z.to_nat (4 * c + 2))) as [b2 E2]; [lia|].
  destruct (lookup_lt_is_Some_2 buffer (Z.to_nat (4 * c + 3))) as [b3 E3]; [lia|].
  assert (B0 : byte_range b0) by (eapply Forall_lookup_1; eauto).
  assert (B1 : byte_range b1) by (eapply Forall_lookup_1; eauto).
  assert (B2 : byte_range b2) by (eapply Forall_lookup_1; eauto).
  assert (B3 : byte_range b3) by (eapply Forall_lookup_1; eauto).
  exists b0, b1, b2, b3. repeat split; try assumption.
  - unfold GetWordFromBuffer, load. rewrite !at_col_small by lia.
    rewrite Z.add_0_r, E0, E1, E2, E3. simpl.
    now rewrite !shl_byte by (assumption || lia).
  - rewrite <- pack_be32 by assumption. unfold pack.
    now rewrite !shl_byte by (assumption || lia).
  - rewrite <- pack_be32 by assumption. apply pack_range; assumption.
  - rewrite <- pack_be32 by assumption. apply pack_range; assumption.
Qed.

Lemma GetWordFromBuffer_big_endian_witness :
  GetWordFromBuffer [0x00; 0x11; 0x22; 0x33; 0x44; 0x55; 0x66; 0x77] 1
  = Some 0x44556677.
Proof.
  destruct (GetWordFromBuffer_big_endian
              [0x00; 0x11; 0x22; 0x33; 0x44; 0x55; 0x66; 0x77] 1)
    as (b0 & b1 & b2 & b3 & E0 & E1 & E2 & E3 & E & _).
  - repeat constructor; unfold byte_range; lia.
  - lia.
  - simpl; lia.
  - vm_compute in E0, E1, E2, E3. 
    injection E0 as <-. injection E1 as <-. injection E2 as <-. injection E3 as <-.
    exact E.
Defined.

(** C6. For a 32-bit word w and a column c in [0,4), [PutStateColumn]
    writes exactly the four bytes of w into out[4c..4c+3], most significant
    byte first; every other octet of the 16-octet buffer stays as it was. *)
Theorem PutStateColumn_writes_msb_first (w c : Z) (out : list Z) :
  word_range w ->
  0 <= c < 4 ->
  length out = 16%nat ->
  PutStateColumn w c out =
  Some (take (Z.to_nat (4 * c)) out
        ++ [byte3 w; byte2 w; byte1 w; byte0 w]
        ++ drop (Z.to_nat (4 * c) + 4) out).
Proof.
  intros Hw Hc Hlen.
  rewrite PutStateColumn_inserts by (rewrite ?Hlen; lia).
  rewrite (u8_small (Z.land _ 0xff)) by apply byte_mask_range.
  rewrite byte3_shr by assumption.
  rewrite insert4_take_drop by lia. reflexivity.
Qed.

Lemma PutStateColumn_writes_msb_first_witness :
  PutStateColumn 0x8899aabb 2 (replicate 16 0)
  = Some [0; 0; 0; 0; 0; 0; 0; 0; 0x88; 0x99; 0xaa; 0xbb; 0; 0; 0; 0].
Proof.
  rewrite (PutStateColumn_writes_msb_first 0x8899aabb 2 (replicate 16 0)).
  - reflexivity.
  - unfold word_range; lia.
  - lia.
  - reflexivity.
Defined.

(** C7. For a 32-bit word w, [RotWord w] is ((w << 8) | (w >> 24)) masked
    to 32 bits, that is, w rotated left by 8 bits within 32 bits: bit i of
    the result is bit (i - 8) mod 32 of w. *)
Theorem RotWord_rotates_left_8 (w : Z) :
  word_range w ->
  RotWord w = Z.land (Z.lor (Z.shiftl w 8) (Z.shiftr w 24)) (2 ^ 32 - 1) /\
  word_range (RotWord w) /\
  (forall i, 0 <= i < 32 ->
     Z.testbit (RotWord w) i = Z.testbit w ((i - 8) mod 32)) /\
  RotWord w = (w mod 2 ^ 24) * 2 ^ 8 + w / 2 ^ 24.
Proof.
  intros Hw.
  assert (E : RotWord w = Z.land (Z.lor (Z.shiftl w 8) (Z.shiftr w 24)) (Z.ones 32)).
  { unfold RotWord, RotateLeft, shl, shr, u32. change 0xffffffff with (Z.ones 32).
    change (32 - 8) with 24. rewrite <- Z.land_ones by lia. Z.bitblast. }
  split; [exact E|]. split; [|split].
  - unfold word_range. rewrite E. apply land_ones_range. lia.
  - intros i Hi. rewrite E, (word_range_land w Hw).
    destruct (Z.lt_ge_cases i 8) as [Hlt|Hge].
    + replace ((i - 8) mod 32) with (i + 24)
        by (apply (Z.mod_unique_pos _ _ (-1)); lia).
      rewrite !Z.land_spec, Z.lor_spec, Z.shiftl_spec, Z.shiftr_spec by lia.
      rewrite (Z.testbit_neg_r _ (i - 8)) by lia.
      rewrite !Z.land_spec, !Z.ones_spec_low by lia. simpl. now rewrite !andb_true_r.
    + replace ((i - 8) mod 32) with (i - 8) by (symmetry; apply Z.mod_small; lia).
      rewrite !Z.land_spec, Z.lor_spec, Z.shiftl_spec, Z.shiftr_spec by lia.
      rewrite !Z.land_spec.
      rewrite (Z.ones_spec_high 32 (i + 24)) by lia.
      rewrite (Z.ones_spec_low 32 (i - 8)), (Z.ones_spec_low 32 i) by lia.
      now rewrite !andb_true_r, andb_false_r, orb_false_r.
  - rewrite E. unfold word_range in Hw.
    rewrite <- (Z.shiftl_mul_pow2 (w mod 2 ^ 24)) by lia.
    rewrite <- (Z.shiftr_div_pow2 w 24) by lia.
    rewrite <- (Z.land_ones w 24) by lia.
    rewrite (word_range_land w Hw).
    rewrite <- Z.or_to_plus; Z.bitblast; Z.bitblast_core.
Qed.

Lemma RotWord_rotates_left_8_witness : RotWord 0x09cf4f3c = 0xcf4f3c09.
Proof.
  destruct (RotWord_rotates_left_8 0x09cf4f3c) as (E & _).
  - unfold word_range; lia.
  - rewrite E. reflexivity.
Defined.

(** C9. On a 16-octet buffer, storing the word w in column c and loading
    column c again gives back w, and [PutStateColumn] leaves the octets
    outside [4c, 4c+4) unchanged. *)
Theorem GetWordFromBuffer_PutStateColumn (w c : Z) (buffer : list Z) :
  word_range w ->
  0 <= c < 4 ->
  length buffer = 16%nat ->
  exists buffer',
    PutStateColumn w c buffer = Some buffer' /\
    length buffer' = 16%nat /\
    GetWordFromBuffer buffer' c = Some w /\
    (forall i : nat,
       ~ (4 * c <= Z.of_nat i < 4 * c + 4) -> buffer' !! i = buffer !! i).
Proof.
  intros Hw Hc Hlen. eexists. split; [|split; [|split]].
  - apply PutStateColumn_inserts; rewrite ?Hlen; lia.
  - now rewrite !length_insert.
  - unfold GetWordFromBuffer, load. rewrite !at_col_small by lia.
    replace (Z.to_nat (4 * c + 0)) with (Z.to_nat (4 * c)) by lia.
    replace (Z.to_nat (4 * c + 1)) with (Z.to_nat (4 * c) + 1)%nat by lia.
    replace (Z.to_nat (4 * c + 2)) with (Z.to_nat (4 * c) + 2)%nat by lia.
    replace (Z.to_nat (4 * c + 3)) with (Z.to_nat (4 * c) + 3)%nat by lia.
    rewrite <- (Nat.add_0_r (Z.to_nat (4 * c))) at 1.
    rewrite !insert4_lookup by lia. simpl.
    rewrite (u8_small (Z.land _ 0xff)) by apply byte_mask_range.
    rewrite byte3_shr by assumption.
    f_equal. apply pack_bytes. assumption.
  - intros i Hi. rewrite !list_lookup_insert_ne by lia. reflexivity.
Qed.

Lemma GetWordFromBuffer_PutStateColumn_witness :
  exists buffer',
    PutStateColumn 0xdeadbeef 3 (map Z.of_nat (seq 0 16)) = Some buffer' /\
    length buffer' = 16%nat /\
    GetWordFromBuffer buffer' 3 = Some 0xdeadbeef /\
    (forall i : nat,
       ~ (4 * 3 <= Z.of_nat i < 4 * 3 + 4) ->
       buffer' !! i = map Z.of_nat (seq 0 16) !! i).
Proof.
  apply (GetWordFromBuffer_PutStateColumn 0xdeadbeef 3 (map Z.of_nat (seq 0 16))).
  - unfold word_range; lia.
  - lia.
  - reflexivity.
Defined.

(** * Facts on the word primitives *)

Lemma rot_index_mod k column :
  0 <= k -> 0 <= column -> k + column < 2 ^ 64 ->
  rot_index k column = (column + k) mod 4.
Proof.
  intros. unfold rot_index. rewrite usize_small by lia. f_equal. lia.
Qed.

Lemma sel_range s i : state_range s -> word_range (sel s i).
Proof.
  intros (H0 & H1 & H2 & H3).
  destruct i as [|[[|[]|]|[|[]|]|]|]; simpl; assumption.
Qed.

Lemma byte3_range w : word_range w -> byte_range (byte3 w).
Proof. intros Hw. rewrite <- byte3_shr by assumption. apply byte_mask_range. Qed.

Lemma byte2_range w : byte_range (byte2 w).
Proof. rewrite <- byte2_shr. apply byte_mask_range. Qed.

Lemma byte1_range w : byte_range (byte1 w).
Proof. rewrite <- byte1_shr. apply byte_mask_range. Qed.

Lemma byte0_range w : byte_range (byte0 w).
Proof. rewrite <- byte0_land. apply byte_mask_range. Qed.

(** Reading back the octets of a packed word. *)
Lemma pack_get3 b0 b1 b2 b3 :
  byte_range b0 -> byte_range b1 -> byte_range b2 -> byte_range b3 ->
  Z.land (shr (pack b0 b1 b2 b3) 24) 0xff = b0.
Proof.
  intros H0 H1 H2 H3. rewrite (byte_range_land b0 H0) at 2.
  rewrite (byte_range_land b1 H1), (byte_range_land b2 H2), (byte_range_land b3 H3).
  unfold pack, shl, shr, u32. change 0xff with (Z.ones 8).
  rewrite <- !Z.land_ones by lia. Z.bitblast; Z.bitblast_core.
Qed.

Lemma pack_get2 b0 b1 b2 b3 :
  byte_range b0 -> byte_range b1 -> byte_range b2 -> byte_range b3 ->
  Z.land (shr (pack b0 b1 b2 b3) 16) 0xff = b1.
Proof.
  intros H0 H1 H2 H3. rewrite (byte_range_land b1 H1) at 2.
  rewrite (byte_range_land b0 H0), (byte_range_land b2 H2), (byte_range_land b3 H3).
  unfold pack, shl, shr, u32. change 0xff with (Z.ones 8).
  rewrite <- !Z.land_ones by lia. Z.bitblast; Z.bitblast_core.
Qed.

Lemma pack_get1 b0 b1 b2 b3 :
  byte_range b0 -> byte_range b1 -> byte_range b2 -> byte_range b3 ->
  Z.land (shr (pack b0 b1 b2 b3) 8) 0xff = b2.
Proof.
  intros H0 H1 H2 H3. rewrite (byte_range_land b2 H2) at 2.
  rewrite (byte_range_land b0 H0), (byte_range_land b1 H1), (byte_range_land b3 H3).
  unfold pack, shl, shr, u32. change 0xff with (Z.ones 8).
  rewrite <- !Z.land_ones by lia. Z.bitblast; Z.bitblast_core.
Qed.

Lemma pack_get0 b0 b1 b2 b3 :
  byte_range b0 -> byte_range b1 -> byte_range b2 -> byte_range b3 ->
  Z.land (pack b0 b1 b2 b3) 0xff = b3.
Proof.
  intros H0 H1 H2 H3. rewrite (byte_range_land b3 H3) at 2.
  rewrite (byte_range_land b0 H0), (byte_range_land b1 H1), (byte_range_land b2 H2).
  unfold pack, shl, shr, u32. change 0xff with (Z.ones 8).
  rewrite <- !Z.land_ones by lia. Z.bitblast; Z.bitblast_core.
Qed.

Lemma column_cases c : 0 <= c < 4 -> c = 0 \/ c = 1 \/ c = 2 \/ c = 3.
Proof. lia. Qed.

(** Evaluate the array indices once the column is a numeral. *)
Ltac eval_rot_index :=
  repeat match goal with
         | |- context [rot_index ?k ?c] =>
             let v := eval vm_compute in (rot_index k c) in
             change (rot_index k c) with v
         end.

Ltac column_case c H :=
  destruct (column_cases c H) as [-> | [-> | [-> | ->]]].

(** * Claims on the table-driven primitives *)

(** C3. For a column c in [0,4) and a state of four 32-bit words,
    [MixColShiftRow c state] is Enc0[byte3(state[c mod 4])] XOR
    Enc1[byte2(state[(c+1) mod 4])] XOR Enc2[byte1(state[(c+2) mod 4])] XOR
    Enc3[byte0(state[(c+3) mod 4])], byte3 being the most significant
    byte. *)
Theorem MixColShiftRow_formula (tb : Tables) (c : Z) (state : State) :
  0 <= c < 4 ->
  state_range state ->
  MixColShiftRow tb c state =
  Z.lxor (Z.lxor (Z.lxor
    (Enc0 tb (byte3 (sel state (c mod 4))))
    (Enc1 tb (byte2 (sel state ((c + 1) mod 4)))))
    (Enc2 tb (byte1 (sel state ((c + 2) mod 4)))))
    (Enc3 tb (byte0 (sel state ((c + 3) mod 4)))).
Proof.
  intros Hc Hs. unfold MixColShiftRow.
  rewrite !rot_index_mod by lia. rewrite Z.add_0_r.
  rewrite byte3_shr by (apply sel_range; assumption).
  now rewrite byte2_shr, byte1_shr, byte0_land.
Qed.

(** C4. For a column c in [0,4) and a state of four 32-bit words,
    [InvMixColShiftRow c state] is Dec0[byte3(state[c mod 4])] XOR
    Dec1[byte2(state[(c+3) mod 4])] XOR Dec2[byte1(state[(c+2) mod 4])] XOR
    Dec3[byte0(state[(c+1) mod 4])]; the offsets (c, c+3, c+2, c+1) pick
    the rows of column c of InvShiftRows(state). *)
Theorem InvMixColShiftRow_formula (tb : Tables) (c : Z) (state : State) :
  0 <= c < 4 ->
  state_range state ->
  InvMixColShiftRow tb c state =
  Z.lxor (Z.lxor (Z.lxor
    (Dec0 tb (byte3 (sel state (c mod 4))))
    (Dec1 tb (byte2 (sel state ((c + 3) mod 4)))))
    (Dec2 tb (byte1 (sel state ((c + 2) mod 4)))))
    (Dec3 tb (byte0 (sel state ((c + 1) mod 4))))
  /\
  InvMixColShiftRow tb c state =
  Z.lxor (Z.lxor (Z.lxor
    (Dec0 tb (byte3 (InvShiftRows_col state c)))
    (Dec1 tb (byte2 (InvShiftRows_col state c))))
    (Dec2 tb (byte1 (InvShiftRows_col state c))))
    (Dec3 tb (byte0 (InvShiftRows_col state c))).
Proof.
  intros Hc Hs.
  assert (E : InvMixColShiftRow tb c state =
    Z.lxor (Z.lxor (Z.lxor
      (Dec0 tb (byte3 (sel state (c mod 4))))
      (Dec1 tb (byte2 (sel state ((c + 3) mod 4)))))
      (Dec2 tb (byte1 (sel state ((c + 2) mod 4)))))
      (Dec3 tb (byte0 (sel state ((c + 1) mod 4))))).
  { unfold InvMixColShiftRow.
    rewrite !rot_index_mod by lia. rewrite Z.add_0_r.
    rewrite byte3_shr by (apply sel_range; assumption).
    now rewrite byte2_shr, byte1_shr, byte0_land. }
  split; [exact E|]. rewrite E. unfold InvShiftRows_col.
  set (p := pack _ _ _ _).
  assert (Hp : word_range p) by (apply pack_range, byte0_range).
  rewrite <- (byte3_shr p Hp), <- (byte2_shr p), <- (byte1_shr p), <- (byte0_land p).
  subst p.
  rewrite pack_get3, pack_get2, pack_get1, pack_get0
    by auto using byte3_range, byte2_range, byte1_range, byte0_range, sel_range.
  column_case c Hc; reflexivity.
Qed.

(** Packed words in the goal, folded back. *)
Ltac fold_pack :=
  repeat match goal with
         | |- context [Z.lor (Z.lor (Z.lor (shl ?a 24) (shl ?b 16)) (shl ?c 8)) ?d] =>
             change (Z.lor (Z.lor (Z.lor (shl a 24) (shl b 16)) (shl c 8)) d)
               with (pack a b c d)
         end.

Ltac close_by_pack_octets Hs :=
  match goal with
  | |- _ = ?w => apply (pack_octets w); destruct Hs as (? & ? & ? & ?); assumption
  end.

Lemma InvSubBytesShiftRows_sub_shift (tb : Tables) (s : State) (c : Z) :
  (forall b, byte_range b -> byte_range (Sbox tb b)) ->
  (forall b, byte_range b -> InverseSbox tb (Sbox tb b) = b) ->
  state_range s ->
  0 <= c < 4 ->
  InvSubBytesShiftRows tb c (sub_shift tb s) = sel s c.
Proof.
  intros HS Hinv Hs Hc.
  assert (Hm : forall x, byte_range (Sbox tb (Z.land x 0xff)))
    by (intros; apply HS, byte_mask_range).
  unfold InvSubBytesShiftRows, sub_shift.
  column_case c Hc; eval_rot_index; cbn [sel col0 col1 col2 col3];
    unfold SubBytesShiftRows; eval_rot_index; fold_pack;
    rewrite pack_get3, pack_get2, pack_get1, pack_get0 by apply Hm;
    rewrite !Hinv by apply byte_mask_range;
    close_by_pack_octets Hs.
Qed.

Lemma SubBytesShiftRows_inv_sub_shift (tb : Tables) (s : State) (c : Z) :
  (forall b, byte_range b -> byte_range (InverseSbox tb b)) ->
  (forall b, byte_range b -> Sbox tb (InverseSbox tb b) = b) ->
  state_range s ->
  0 <= c < 4 ->
  SubBytesShiftRows tb c (inv_sub_shift tb s) = sel s c.
Proof.
  intros HS Hinv Hs Hc.
  assert (Hm : forall x, byte_range (InverseSbox tb (Z.land x 0xff)))
    by (intros; apply HS, byte_mask_range).
  unfold SubBytesShiftRows, inv_sub_shift.
  column_case c Hc; eval_rot_index; cbn [sel col0 col1 col2 col3];
    unfold InvSubBytesShiftRows; eval_rot_index; fold_pack;
    rewrite pack_get3, pack_get2, pack_get1, pack_get0 by apply Hm;
    rewrite !Hinv by apply byte_mask_range;
    close_by_pack_octets Hs.
Qed.

(** C10. When InverseSbox[Sbox[b]] = b for every octet b, the final
    decryption step undoes the final encryption step: if t[k] =
    SubBytesShiftRows(k, s) for each k in [0,4), then
    InvSubBytesShiftRows(c, t) = s[c] for each column c in [0,4). *)
Theorem InvSubBytesShiftRows_SubBytesShiftRows
    (tb : Tables) (s t : State) (c : Z) :
  (forall b, byte_range b -> byte_range (Sbox tb b)) ->
  (forall b, byte_range b -> InverseSbox tb (Sbox tb b) = b) ->
  state_range s ->
  (forall k, 0 <= k < 4 -> sel t k = SubBytesShiftRows tb k s) ->
  0 <= c < 4 ->
  InvSubBytesShiftRows tb c t = sel s c.
Proof.
  intros HS Hinv Hs Ht Hc.
  assert (E : t = sub_shift tb s).
  { destruct t as [t0 t1 t2 t3]. unfold sub_shift.
    pose proof (Ht 0 ltac:(lia)) as E0. pose proof (Ht 1 ltac:(lia)) as E1.
    pose proof (Ht 2 ltac:(lia)) as E2. pose proof (Ht 3 ltac:(lia)) as E3.
    simpl in E0, E1, E2, E3. congruence. }
  rewrite E. now apply InvSubBytesShiftRows_sub_shift.
Qed.

(** * Claim on the CPU check *)

Lemma land_bit_eqb x n :
  0 <= n -> negb (Z.land x (Z.shiftl 1 n) =? 0) = Z.testbit x n.
Proof.
  intros Hn. destruct (Z.testbit x n) eqn:E.
  - apply negb_true_iff, Z.eqb_neq. intros H0.
    assert (Hb : Z.testbit (Z.land x (Z.shiftl 1 n)) n = true).
    { rewrite Z.land_spec, E, Z.shiftl_spec, Z.sub_diag by lia. reflexivity. }
    rewrite H0, Z.bits_0 in Hb. discriminate.
  - apply negb_false_iff, Z.eqb_eq. apply Z.bits_inj'. intros i Hi.
    rewrite Z.land_spec, Z.bits_0, Z.shiftl_spec by lia.
    destruct (Z.eq_dec i n) as [->|Hne].
    + rewrite E. reflexivity.
    + replace (Z.testbit 1 (i - n)) with false; [apply andb_false_r|].
      destruct (Z.lt_ge_cases i n).
      * rewrite Z.testbit_neg_r by lia. reflexivity.
      * symmetry. apply (Z.bits_above_log2 1 (i - n)); simpl; lia.
Qed.

(** C8. When the Intel-intrinsics path is not compiled in,
    [CPUSupportsAES_NI] returns false, and that is the case on a host that
    is not x86-64 (unless the build forces the macro).  Otherwise, with
    CPUID as an oracle: it returns false if leaf 0 reports a maximum
    function id less than 1, and else it returns true exactly when bit 25
    (mask 0x02000000) of ECX of leaf 1 is set. *)
Theorem CPUSupportsAES_NI_behaviour (b : Build) (cpuid : Cpuid) :
  INTEL_AES_BIT = 0x02000000 /\
  (TERRA_USE_INTEL_AES_INTRINSICS b = false -> CPUSupportsAES_NI b cpuid = false) /\
  (target_x86_64 b = false -> use_predefined b = false ->
     CPUSupportsAES_NI b cpuid = false) /\
  (TERRA_USE_INTEL_AES_INTRINSICS b = true -> eax (cpuid 0) < 1 ->
     CPUSupportsAES_NI b cpuid = false) /\
  (TERRA_USE_INTEL_AES_INTRINSICS b = true -> 1 <= eax (cpuid 0) ->
     CPUSupportsAES_NI b cpuid = Z.testbit (ecx (cpuid 1)) 25).
Proof.
  split; [reflexivity|]. unfold CPUSupportsAES_NI. repeat split.
  - intros ->. reflexivity.
  - intros Hx Hp. unfold TERRA_USE_INTEL_AES_INTRINSICS.
    rewrite Hx, Hp, andb_false_r. reflexivity.
  - intros -> Hlt.
    unfold CPUSupportsAES_NI_win32, CPUSupportsAES_NI_linux, CPUSupportsAES_NI_asm.
    destruct (Z.ltb_spec (eax (cpuid 0)) 1); [|lia]. now destruct (host b).
  - intros -> Hge.
    unfold CPUSupportsAES_NI_win32, CPUSupportsAES_NI_linux, CPUSupportsAES_NI_asm.
    destruct (Z.ltb_spec (eax (cpuid 0)) 1); [lia|].
    change INTEL_AES_BIT with (Z.shiftl 1 25).
    destruct (host b); rewrite land_bit_eqb by lia; try reflexivity.
    unfold u32. apply Z.mod_pow2_bits_low. lia.
Qed.

(** * GF(2^8) *)

Lemma all_octets_spec (p : Z -> bool) :
  all_octets p = true -> forall b, byte_range b -> p b = true.
Proof.
  unfold all_octets, octets, byte_range. intros H b Hb.
  rewrite forallb_forall in H. apply H.
  rewrite <- (Z2Nat.id b) by lia. apply in_map, in_seq. lia.
Qed.

Lemma xtime_lxor a b : xtime (Z.lxor a b) = Z.lxor (xtime a) (xtime b).
Proof.
  unfold xtime. rewrite Z.lxor_spec. change 0xff with (Z.ones 8).
  destruct (Z.testbit a 7), (Z.testbit b 7); simpl xorb; cbv iota; Z.bitblast.
Qed.

Lemma xtime_0 : xtime 0 = 0.
Proof. reflexivity. Qed.

Lemma xtime_range b : byte_range (xtime b).
Proof.
  unfold xtime. apply byte_range_lxor.
  - apply byte_mask_range.
  - destruct (Z.testbit b 7); unfold byte_range; lia.
Qed.

Lemma lxor_interchange a b c d :
  Z.lxor (Z.lxor a b) (Z.lxor c d) = Z.lxor (Z.lxor a c) (Z.lxor b d).
Proof. Z.bitblast. Qed.

Lemma gmul_bits_lxor n : forall a b c,
  gmul_bits n (Z.lxor a b) c = Z.lxor (gmul_bits n a c) (gmul_bits n b c).
Proof.
  induction n as [|n IH]; intros a b c; simpl.
  - reflexivity.
  - rewrite xtime_lxor, IH, <- lxor_interchange.
    destruct (Z.odd c); [reflexivity | now rewrite Z.lxor_0_l].
Qed.

Lemma gmul_lxor a b c : gmul (Z.lxor a b) c = Z.lxor (gmul a c) (gmul b c).
Proof. apply gmul_bits_lxor. Qed.

Lemma gmul_bits_0 n : forall c, gmul_bits n 0 c = 0.
Proof.
  induction n as [|n IH]; intros c; simpl; [reflexivity|].
  rewrite xtime_0, IH. now destruct (Z.odd c).
Qed.

Lemma gmul_0 c : gmul 0 c = 0.
Proof. apply gmul_bits_0. Qed.

Lemma gmul_bits_range n : forall a c, byte_range a -> byte_range (gmul_bits n a c).
Proof.
  induction n as [|n IH]; intros a c Ha; simpl.
  - unfold byte_range; lia.
  - apply byte_range_lxor.
    + destruct (Z.odd c); [assumption | unfold byte_range; lia].
    + apply IH, xtime_range.
Qed.

Lemma gmul_range a c : byte_range a -> byte_range (gmul a c).
Proof. apply gmul_bits_range. Qed.

(** * MixColumns and InvMixColumns *)

Lemma pack_lxor a b c d a' b' c' d' :
  byte_range a -> byte_range b -> byte_range c -> byte_range d ->
  byte_range a' -> byte_range b' -> byte_range c' -> byte_range d' ->
  pack (Z.lxor a a') (Z.lxor b b') (Z.lxor c c') (Z.lxor d d')
  = Z.lxor (pack a b c d) (pack a' b' c' d').
Proof.
  intros Ha Hb Hc Hd Ha' Hb' Hc' Hd'.
  rewrite (byte_range_land a Ha), (byte_range_land a' Ha').
  rewrite (byte_range_land b Hb), (byte_range_land c Hc), (byte_range_land d Hd),
    (byte_range_land b' Hb'), (byte_range_land c' Hc'), (byte_range_land d' Hd').
  unfold pack, shl, u32. rewrite <- !Z.land_ones by lia.
  Z.bitblast; Z.bitblast_core.
Qed.

Lemma octet_lxor x y k :
  0 <= k ->
  Z.land (shr (Z.lxor x y) k) 0xff
  = Z.lxor (Z.land (shr x k) 0xff) (Z.land (shr y k) 0xff).
Proof. intros Hk. unfold shr. change 0xff with (Z.ones 8). Z.bitblast. Qed.

Lemma octet0_lxor x y :
  Z.land (Z.lxor x y) 0xff = Z.lxor (Z.land x 0xff) (Z.land y 0xff).
Proof. change 0xff with (Z.ones 8). Z.bitblast. Qed.

Lemma lxor_interchange4 a b c d a' b' c' d' :
  Z.lxor (Z.lxor (Z.lxor (Z.lxor a a') (Z.lxor b b')) (Z.lxor c c')) (Z.lxor d d')
  = Z.lxor (Z.lxor (Z.lxor (Z.lxor a b) c) d) (Z.lxor (Z.lxor (Z.lxor a' b') c') d').
Proof. Z.bitblast. Qed.

Lemma lxor_transpose4 a0 a1 a2 a3 b0 b1 b2 b3 c0 c1 c2 c3 d0 d1 d2 d3 :
  Z.lxor (Z.lxor (Z.lxor
    (Z.lxor (Z.lxor (Z.lxor a0 a1) a2) a3)
    (Z.lxor (Z.lxor (Z.lxor b0 b1) b2) b3))
    (Z.lxor (Z.lxor (Z.lxor c0 c1) c2) c3))
    (Z.lxor (Z.lxor (Z.lxor d0 d1) d2) d3)
  = Z.lxor (Z.lxor (Z.lxor
    (Z.lxor (Z.lxor (Z.lxor a0 b0) c0) d0)
    (Z.lxor (Z.lxor (Z.lxor a1 b1) c1) d1))
    (Z.lxor (Z.lxor (Z.lxor a2 b2) c2) d2))
    (Z.lxor (Z.lxor (Z.lxor a3 b3) c3) d3).
Proof. Z.bitblast. Qed.

Lemma gmul_lxor4 a b c d k :
  gmul (Z.lxor (Z.lxor (Z.lxor a b) c) d) k
  = Z.lxor (Z.lxor (Z.lxor (gmul a k) (gmul b k)) (gmul c k)) (gmul d k).
Proof. now rewrite !gmul_lxor. Qed.

Lemma gmul_bits_0_r n : forall x, gmul_bits n x 0 = 0.
Proof.
  induction n as [|n IH]; intros x; simpl; [reflexivity|].
  change (Z.shiftr 0 1) with 0. now rewrite IH.
Qed.

Lemma gmul_1 a : gmul a 1 = a.
Proof.
  unfold gmul. change (gmul_bits 8 a 1) with (Z.lxor a (gmul_bits 7 (xtime a) 0)).
  rewrite gmul_bits_0_r. apply Z.lxor_0_r.
Qed.

(** Close a goal [e = r] about one octet [a] by checking all 256 octets. *)
Ltac octet_check a Ha :=
  apply Z.eqb_eq;
  match goal with
  | |- (?e =? ?r) = true =>
      let f := eval pattern a in (e =? r) in
      match f with
      | ?p a => exact (all_octets_spec p ltac:(vm_compute; reflexivity) a Ha)
      end
  end.

(** The products of the rows of the InvMixColumns matrix (0e 0b 0d 09) by
    the columns of the MixColumns matrix (02 03 01 01), and conversely,
    as maps on one octet: the identity on the diagonal, zero elsewhere. *)
Ltac row_identity :=
  rewrite !gmul_lxor4, lxor_transpose4;
  match goal with
  | Ha0 : byte_range ?a0, Ha1 : byte_range ?a1,
    Ha2 : byte_range ?a2, Ha3 : byte_range ?a3
    |- Z.lxor (Z.lxor (Z.lxor ?g0 ?g1) ?g2) ?g3 = ?r =>
      let r0 := match r with a0 => a0 | _ => constr:(0) end in
      let r1 := match r with a1 => a1 | _ => constr:(0) end in
      let r2 := match r with a2 => a2 | _ => constr:(0) end in
      let r3 := match r with a3 => a3 | _ => constr:(0) end in
      replace g0 with r0 by (symmetry; octet_check a0 Ha0);
      replace g1 with r1 by (symmetry; octet_check a1 Ha1);
      replace g2 with r2 by (symmetry; octet_check a2 Ha2);
      replace g3 with r3 by (symmetry; octet_check a3 Ha3);
      rewrite ?Z.lxor_0_r, ?Z.lxor_0_l; reflexivity
  end.
Lemma pack_ext a b c d a' b' c' d' :
  a = a' -> b = b' -> c = c' -> d = d' -> pack a b c d = pack a' b' c' d'.
Proof. congruence. Qed.

Create HintDb octets.

#[local] Hint Resolve byte_range_lxor gmul_range byte_mask_range : octets.

Lemma MixColumns_pack a0 a1 a2 a3 :
  byte_range a0 -> byte_range a1 -> byte_range a2 -> byte_range a3 ->
  MixColumns (pack a0 a1 a2 a3) =
  pack (Z.lxor (Z.lxor (Z.lxor (gmul a0 2) (gmul a1 3)) a2) a3)
       (Z.lxor (Z.lxor (Z.lxor a0 (gmul a1 2)) (gmul a2 3)) a3)
       (Z.lxor (Z.lxor (Z.lxor a0 a1) (gmul a2 2)) (gmul a3 3))
       (Z.lxor (Z.lxor (Z.lxor (gmul a0 3) a1) a2) (gmul a3 2)).
Proof.
  intros H0 H1 H2 H3. unfold MixColumns. cbv zeta.
  now rewrite pack_get3, pack_get2, pack_get1, pack_get0 by assumption.
Qed.

Lemma InvMixColumns_pack a0 a1 a2 a3 :
  byte_range a0 -> byte_range a1 -> byte_range a2 -> byte_range a3 ->
  InvMixColumns (pack a0 a1 a2 a3) =
  pack (Z.lxor (Z.lxor (Z.lxor (gmul a0 0x0e) (gmul a1 0x0b)) (gmul a2 0x0d)) (gmul a3 0x09))
       (Z.lxor (Z.lxor (Z.lxor (gmul a0 0x09) (gmul a1 0x0e)) (gmul a2 0x0b)) (gmul a3 0x0d))
       (Z.lxor (Z.lxor (Z.lxor (gmul a0 0x0d) (gmul a1 0x09)) (gmul a2 0x0e)) (gmul a3 0x0b))
       (Z.lxor (Z.lxor (Z.lxor (gmul a0 0x0b) (gmul a1 0x0d)) (gmul a2 0x09)) (gmul a3 0x0e)).
Proof.
  intros H0 H1 H2 H3. unfold InvMixColumns. cbv zeta.
  now rewrite pack_get3, pack_get2, pack_get1, pack_get0 by assumption.
Qed.

Lemma InvMixColumns_MixColumns_pack a0 a1 a2 a3 :
  byte_range a0 -> byte_range a1 -> byte_range a2 -> byte_range a3 ->
  InvMixColumns (MixColumns (pack a0 a1 a2 a3)) = pack a0 a1 a2 a3.
Proof.
  intros H0 H1 H2 H3.
  rewrite MixColumns_pack by assumption.
  rewrite InvMixColumns_pack by auto 6 with octets.
  apply pack_ext.
  - row_identity.
  - row_identity.
  - row_identity.
  - row_identity.
Qed.

Lemma MixColumns_InvMixColumns_pack a0 a1 a2 a3 :
  byte_range a0 -> byte_range a1 -> byte_range a2 -> byte_range a3 ->
  MixColumns (InvMixColumns (pack a0 a1 a2 a3)) = pack a0 a1 a2 a3.
Proof.
  intros H0 H1 H2 H3.
  rewrite InvMixColumns_pack by assumption.
  rewrite MixColumns_pack by auto 6 with octets.
  apply pack_ext.
  - row_identity.
  - row_identity.
  - row_identity.
  - row_identity.
Qed.

Lemma InvMixColumns_MixColumns w :
  word_range w -> InvMixColumns (MixColumns w) = w.
Proof.
  intros Hw. pose proof (pack_octets w Hw) as E.
  set (p := pack _ _ _ _) in E. rewrite <- E. subst p.
  apply InvMixColumns_MixColumns_pack; auto with octets.
Qed.

Lemma MixColumns_InvMixColumns w :
  word_range w -> MixColumns (InvMixColumns w) = w.
Proof.
  intros Hw. pose proof (pack_octets w Hw) as E.
  set (p := pack _ _ _ _) in E. rewrite <- E. subst p.
  apply MixColumns_InvMixColumns_pack; auto with octets.
Qed.

Lemma MixColumns_range w : word_range (MixColumns w).
Proof. unfold MixColumns. cbv zeta. apply pack_range. auto 6 with octets. Qed.

Lemma InvMixColumns_range w : word_range (InvMixColumns w).
Proof. unfold InvMixColumns. cbv zeta. apply pack_range. auto 6 with octets. Qed.

(** InvMixColumns is linear over XOR, on all integers. *)
Lemma InvMixColumns_lxor x y :
  InvMixColumns (Z.lxor x y) = Z.lxor (InvMixColumns x) (InvMixColumns y).
Proof.
  unfold InvMixColumns. cbv zeta.
  rewrite !octet_lxor, octet0_lxor by lia.
  rewrite !gmul_lxor, !lxor_interchange4.
  apply pack_lxor; auto 6 with octets.
Qed.

(** * The T-tables *)

Lemma lor_add_disjoint k x z :
  0 <= k -> 0 <= x < 2 ^ k -> Z.lor x (z * 2 ^ k) = x + z * 2 ^ k.
Proof.
  intros Hk Hx. apply Z.or_to_plus. apply Z.bits_inj'. intros i Hi.
  rewrite Z.land_spec, Z.bits_0, <- Z.shiftl_mul_pow2, Z.shiftl_spec by lia.
  destruct (Z.lt_ge_cases i k).
  - rewrite (Z.testbit_neg_r z) by lia. apply andb_false_r.
  - rewrite (range_land k x Hk Hx), Z.land_spec, Z.ones_spec_high by lia.
    now rewrite andb_false_r.
Qed.

Lemma be32_range a b c d :
  byte_range a -> byte_range b -> byte_range c -> byte_range d ->
  word_range (be32 a b c d).
Proof. unfold byte_range, word_range, be32. lia. Qed.

Ltac rotr32_be32 q r k :=
  unfold rotr32, shl, shr, u32;
  rewrite Z.shiftr_div_pow2, Z.shiftl_mul_pow2 by lia;
  match goal with
  | |- Z.lor ?x ?y = _ =>
      replace x with q by (unfold be32, byte_range in *; Z.div_mod_to_equations; lia);
      replace y with (r * 2 ^ k) by (unfold be32, byte_range in *; Z.div_mod_to_equations; lia)
  end;
  rewrite lor_add_disjoint by (unfold be32, byte_range in *; lia);
  unfold be32; lia.

Lemma rotr32_pack_0 a b c d :
  byte_range a -> byte_range b -> byte_range c -> byte_range d ->
  rotr32 (pack a b c d) 0 = pack a b c d.
Proof.
  intros Ha Hb Hc Hd. rewrite !pack_be32 by assumption.
  rotr32_be32 (be32 a b c d) 0 32.
Qed.

Lemma rotr32_pack_8 a b c d :
  byte_range a -> byte_range b -> byte_range c -> byte_range d ->
  rotr32 (pack a b c d) 8 = pack d a b c.
Proof.
  intros Ha Hb Hc Hd. rewrite !pack_be32 by assumption.
  rotr32_be32 (be32 0 a b c) d 24.
Qed.

Lemma rotr32_pack_16 a b c d :
  byte_range a -> byte_range b -> byte_range c -> byte_range d ->
  rotr32 (pack a b c d) 16 = pack c d a b.
Proof.
  intros Ha Hb Hc Hd. rewrite !pack_be32 by assumption.
  rotr32_be32 (be32 0 0 a b) (be32 0 0 c d) 16.
Qed.

Lemma rotr32_pack_24 a b c d :
  byte_range a -> byte_range b -> byte_range c -> byte_range d ->
  rotr32 (pack a b c d) 24 = pack b c d a.
Proof.
  intros Ha Hb Hc Hd. rewrite !pack_be32 by assumption.
  rotr32_be32 (be32 0 0 0 a) (be32 0 b c d) 8.
Qed.

Lemma pack_lxor4 a0 a1 a2 a3 b0 b1 b2 b3 c0 c1 c2 c3 d0 d1 d2 d3 :
  byte_range a0 -> byte_range a1 -> byte_range a2 -> byte_range a3 ->
  byte_range b0 -> byte_range b1 -> byte_range b2 -> byte_range b3 ->
  byte_range c0 -> byte_range c1 -> byte_range c2 -> byte_range c3 ->
  byte_range d0 -> byte_range d1 -> byte_range d2 -> byte_range d3 ->
  Z.lxor (Z.lxor (Z.lxor (pack a0 a1 a2 a3) (pack b0 b1 b2 b3))
    (pack c0 c1 c2 c3)) (pack d0 d1 d2 d3)
  = pack (Z.lxor (Z.lxor (Z.lxor a0 b0) c0) d0)
         (Z.lxor (Z.lxor (Z.lxor a1 b1) c1) d1)
         (Z.lxor (Z.lxor (Z.lxor a2 b2) c2) d2)
         (Z.lxor (Z.lxor (Z.lxor a3 b3) c3) d3).
Proof.
  intros. rewrite <- !pack_lxor by auto with octets. reflexivity.
Qed.

#[local] Hint Resolve xtime_range byte0_range byte1_range byte2_range : octets.

Lemma FastInvMixColumn_is_InvMixColumns (tb : Tables) :
  (forall b, byte_range b -> byte_range (Sbox tb b)) ->
  (forall b, byte_range b -> InverseSbox tb (Sbox tb b) = b) ->
  (forall b, byte_range b -> Dec0 tb b = rotr32 (dec_base (InverseSbox tb b)) 0) ->
  (forall b, byte_range b -> Dec1 tb b = rotr32 (dec_base (InverseSbox tb b)) 8) ->
  (forall b, byte_range b -> Dec2 tb b = rotr32 (dec_base (InverseSbox tb b)) 16) ->
  (forall b, byte_range b -> Dec3 tb b = rotr32 (dec_base (InverseSbox tb b)) 24) ->
  forall w, FastInvMixColumn tb w = InvMixColumns w.
Proof.
  intros HS Hinv H0 H1 H2 H3 w. unfold FastInvMixColumn, InvMixColumns. cbv zeta.
  rewrite H0, H1, H2, H3 by auto with octets.
  rewrite !Hinv by auto with octets. unfold dec_base.
  rewrite rotr32_pack_0, rotr32_pack_8, rotr32_pack_16, rotr32_pack_24
    by auto with octets.
  apply pack_lxor4; auto with octets.
Qed.

Section TableFacts.

Context (tb : Tables) (Htb : TablesFIPS tb).

Lemma Sbox_octet x : byte_range (Sbox tb (Z.land x 0xff)).
Proof. apply (fips_Sbox_u8 tb Htb), byte_mask_range. Qed.

Lemma InverseSbox_octet x : byte_range (InverseSbox tb (Z.land x 0xff)).
Proof. apply (fips_InverseSbox_u8 tb Htb), byte_mask_range. Qed.

Lemma FastInvMixColumn_InvMixColumns w : FastInvMixColumn tb w = InvMixColumns w.
Proof.
  destruct Htb. now apply FastInvMixColumn_is_InvMixColumns.
Qed.

Lemma MixColShiftRow_MixColumns c s :
  MixColShiftRow tb c s = MixColumns (SubBytesShiftRows tb c s).
Proof.
  unfold MixColShiftRow, SubBytesShiftRows.
  match goal with
  | |- _ = MixColumns (Z.lor (Z.lor (Z.lor (shl ?a 24) (shl ?b 16)) (shl ?c 8)) ?d) =>
      change (Z.lor (Z.lor (Z.lor (shl a 24) (shl b 16)) (shl c 8)) d)
        with (pack a b c d)
  end.
  rewrite MixColumns_pack by apply Sbox_octet.
  rewrite (fips_Enc0 tb Htb), (fips_Enc1 tb Htb), (fips_Enc2 tb Htb),
    (fips_Enc3 tb Htb) by apply byte_mask_range.
  unfold enc_base.
  pose proof Sbox_octet.
  rewrite rotr32_pack_0, rotr32_pack_8, rotr32_pack_16, rotr32_pack_24
    by auto with octets.
  apply pack_lxor4; auto with octets.
Qed.

Lemma InvMixColShiftRow_InvMixColumns c s :
  InvMixColShiftRow tb c s = InvMixColumns (InvSubBytesShiftRows tb c s).
Proof.
  unfold InvMixColShiftRow, InvSubBytesShiftRows.
  match goal with
  | |- _ = InvMixColumns (Z.lor (Z.lor (Z.lor (shl ?a 24) (shl ?b 16)) (shl ?c 8)) ?d) =>
      change (Z.lor (Z.lor (Z.lor (shl a 24) (shl b 16)) (shl c 8)) d)
        with (pack a b c d)
  end.
  rewrite InvMixColumns_pack by apply InverseSbox_octet.
  rewrite (fips_Dec0 tb Htb), (fips_Dec1 tb Htb), (fips_Dec2 tb Htb),
    (fips_Dec3 tb Htb) by apply byte_mask_range.
  unfold dec_base.
  pose proof InverseSbox_octet.
  rewrite rotr32_pack_0, rotr32_pack_8, rotr32_pack_16, rotr32_pack_24
    by auto with octets.
  apply pack_lxor4; auto with octets.
Qed.

End TableFacts.

(** * States and round keys *)

Lemma add_round_key_cancel s k : add_round_key (add_round_key s k) k = s.
Proof.
  destruct s, k. unfold add_round_key, AddRoundKey. simpl.
  now rewrite !Z.lxor_assoc, !Z.lxor_nilpotent, !Z.lxor_0_r.
Qed.

Lemma map_InvMixColumns_add s k :
  map_state InvMixColumns (add_round_key s k)
  = add_round_key (map_state InvMixColumns s) (map_state InvMixColumns k).
Proof.
  unfold map_state, add_round_key, AddRoundKey. simpl.
  now rewrite !InvMixColumns_lxor.
Qed.

Lemma state_range_add s k :
  state_range s -> state_range k -> state_range (add_round_key s k).
Proof.
  intros (? & ? & ? & ?) (? & ? & ? & ?).
  unfold state_range, add_round_key, AddRoundKey. simpl.
  auto using word_range_lxor.
Qed.

Lemma state_range_MixColumns s : state_range (map_state MixColumns s).
Proof. unfold state_range, map_state. simpl. auto using MixColumns_range. Qed.

Lemma state_range_InvMixColumns s : state_range (map_state InvMixColumns s).
Proof. unfold state_range, map_state. simpl. auto using InvMixColumns_range. Qed.

Lemma map_InvMixColumns_MixColumns s :
  state_range s -> map_state InvMixColumns (map_state MixColumns s) = s.
Proof.
  destruct s. intros (? & ? & ? & ?). unfold map_state. simpl in *.
  now rewrite !InvMixColumns_MixColumns.
Qed.

Lemma map_MixColumns_InvMixColumns s :
  state_range s -> map_state MixColumns (map_state InvMixColumns s) = s.
Proof.
  destruct s. intros (? & ? & ? & ?). unfold map_state. simpl in *.
  now rewrite !MixColumns_InvMixColumns.
Qed.

Lemma word_at_range W i : Forall word_range W -> word_range (word_at W i).
Proof.
  intros HW. unfold word_at. destruct (W !! i) as [w|] eqn:E; simpl.
  - eapply Forall_lookup_1; eauto.
  - unfold word_range. lia.
Qed.

Lemma round_key_range W r : Forall word_range W -> state_range (round_key W r).
Proof.
  intros HW. unfold state_range, round_key. simpl. auto using word_at_range.
Qed.

Section Rounds.

Context (tb : Tables) (Htb : TablesFIPS tb).

Lemma state_range_sub_shift s : state_range (sub_shift tb s).
Proof.
  unfold state_range, sub_shift, SubBytesShiftRows. simpl. fold_pack.
  repeat split; apply pack_range, Sbox_octet; assumption.
Qed.

Lemma state_range_inv_sub_shift s : state_range (inv_sub_shift tb s).
Proof.
  unfold state_range, inv_sub_shift, InvSubBytesShiftRows. simpl. fold_pack.
  repeat split; apply pack_range, InverseSbox_octet; assumption.
Qed.

Lemma inv_sub_shift_sub_shift s :
  state_range s -> inv_sub_shift tb (sub_shift tb s) = s.
Proof.
  intros Hs. destruct Htb. destruct s as [c0 c1 c2 c3].
  unfold inv_sub_shift.
  rewrite !InvSubBytesShiftRows_sub_shift by (assumption || lia). reflexivity.
Qed.

Lemma sub_shift_inv_sub_shift s :
  state_range s -> sub_shift tb (inv_sub_shift tb s) = s.
Proof.
  intros Hs. destruct Htb. destruct s as [c0 c1 c2 c3].
  unfold sub_shift.
  rewrite !SubBytesShiftRows_inv_sub_shift by (assumption || lia). reflexivity.
Qed.

Lemma enc_round_MixColumns W r s :
  enc_round tb W r s
  = add_round_key (map_state MixColumns (sub_shift tb s)) (round_key W r).
Proof.
  unfold enc_round. now rewrite !(MixColShiftRow_MixColumns tb Htb).
Qed.

Lemma dec_round_InvMixColumns W r s :
  dec_round tb W r s
  = add_round_key (map_state InvMixColumns (inv_sub_shift tb s)) (round_key W r).
Proof.
  unfold dec_round. now rewrite !(InvMixColShiftRow_InvMixColumns tb Htb).
Qed.

Lemma enc_round_range W r s :
  Forall word_range W -> state_range (enc_round tb W r s).
Proof.
  intros HW. rewrite enc_round_MixColumns.
  auto using state_range_add, state_range_MixColumns, round_key_range.
Qed.

Lemma enc_rounds_range W n s :
  Forall word_range W -> state_range s -> state_range (enc_rounds tb W n s).
Proof.
  intros HW Hs. destruct n; simpl; [assumption | now apply enc_round_range].
Qed.

End Rounds.

(** * The two schedules *)

Section Schedules.

Context (tb : Tables) (Htb : TablesFIPS tb).
Context (W : list Z) (nr : nat).
Context (HW : Forall word_range W) (Hlen : length W = (4 * (nr + 1))%nat).

Lemma word_at_InverseExpansion i :
  (i < length W)%nat ->
  word_at (InverseExpansion tb nr W) i =
  if ((0 <? i / 4) && (i / 4 <? nr))%nat then InvMixColumns (word_at W i)
  else word_at W i.
Proof.
  intros Hi. unfold word_at, InverseExpansion. rewrite list_lookup_imap.
  destruct (lookup_lt_is_Some_2 W i Hi) as [w ->]. simpl.
  now rewrite (FastInvMixColumn_InvMixColumns tb Htb).
Qed.

Lemma InverseExpansion_range : Forall word_range (InverseExpansion tb nr W).
Proof.
  apply Forall_lookup_2. intros i w. unfold InverseExpansion.
  rewrite list_lookup_imap. destruct (W !! i) as [x|] eqn:E; simpl; [|discriminate].
  intros [= <-]. destruct (_ && _).
  - rewrite (FastInvMixColumn_InvMixColumns tb Htb). apply InvMixColumns_range.
  - eapply Forall_lookup_1; eauto.
Qed.

Lemma round_div r k : (k < 4)%nat -> ((4 * r + k) / 4)%nat = r.
Proof. intros Hk. symmetry. apply (Nat.div_unique _ 4 r k); lia. Qed.

Lemma word_at_inverse_round r k :
  (r <= nr)%nat -> (k < 4)%nat ->
  word_at (InverseExpansion tb nr W) (4 * r + k) =
  if ((0 <? r) && (r <? nr))%nat then InvMixColumns (word_at W (4 * r + k))
  else word_at W (4 * r + k).
Proof.
  intros Hr Hk. rewrite word_at_InverseExpansion by lia.
  now rewrite round_div.
Qed.

Lemma round_key_inverse r :
  (r <= nr)%nat ->
  round_key (InverseExpansion tb nr W) r =
  if ((0 <? r) && (r <? nr))%nat then map_state InvMixColumns (round_key W r)
  else round_key W r.
Proof.
  intros Hr. unfold round_key, map_state. cbn [col0 col1 col2 col3].
  pose proof (word_at_inverse_round r 0 Hr ltac:(lia)) as E0.
  rewrite Nat.add_0_r in E0.
  rewrite E0, !word_at_inverse_round by lia.
  now destruct (_ && _).
Qed.

Lemma round_key_inverse_middle r :
  (0 < r < nr)%nat ->
  round_key (InverseExpansion tb nr W) r
  = map_state InvMixColumns (round_key W r).
Proof.
  intros Hr. rewrite round_key_inverse by lia.
  destruct (Nat.ltb_spec 0 r); [|lia]. destruct (Nat.ltb_spec r nr); [|lia].
  reflexivity.
Qed.

Lemma round_key_inverse_outer r :
  r = 0%nat \/ r = nr ->
  round_key (InverseExpansion tb nr W) r = round_key W r.
Proof.
  intros Hr. rewrite round_key_inverse by lia.
  destruct (Nat.ltb_spec 0 r), (Nat.ltb_spec r nr); try reflexivity; lia.
Qed.

(** Decryption rounds n .. 1 undo encryption rounds 1 .. n, up to the
    SubBytes-ShiftRows layer the final rounds peel off. *)
Lemma dec_rounds_enc_rounds n s :
  (n < nr)%nat -> state_range s ->
  dec_rounds tb (InverseExpansion tb nr W) n (sub_shift tb (enc_rounds tb W n s))
  = sub_shift tb s.
Proof.
  intros Hn Hs. induction n as [|n IH]; [reflexivity|].
  cbn [dec_rounds enc_rounds].
  rewrite (dec_round_InvMixColumns tb Htb).
  rewrite (inv_sub_shift_sub_shift tb Htb) by now apply enc_round_range.
  rewrite round_key_inverse_middle by lia.
  rewrite <- map_InvMixColumns_add.
  rewrite (enc_round_MixColumns tb Htb), add_round_key_cancel.
  rewrite map_InvMixColumns_MixColumns by now apply state_range_sub_shift.
  apply IH. lia.
Qed.

Lemma dec_round_range r s :
  state_range (dec_round tb (InverseExpansion tb nr W) r s).
Proof.
  rewrite (dec_round_InvMixColumns tb Htb).
  auto using state_range_add, state_range_InvMixColumns, round_key_range,
    InverseExpansion_range.
Qed.

Lemma enc_rounds_dec_rounds n : forall s,
  (n < nr)%nat -> state_range s ->
  enc_rounds tb W n (inv_sub_shift tb (dec_rounds tb (InverseExpansion tb nr W) n s))
  = inv_sub_shift tb s.
Proof.
  induction n as [|n IH]; intros s Hn Hs; [reflexivity|].
  cbn [dec_rounds enc_rounds].
  rewrite IH by (lia || apply dec_round_range).
  rewrite (enc_round_MixColumns tb Htb).
  rewrite (sub_shift_inv_sub_shift tb Htb) by apply dec_round_range.
  rewrite (dec_round_InvMixColumns tb Htb).
  rewrite round_key_inverse_middle by lia.
  rewrite <- map_InvMixColumns_add.
  rewrite map_MixColumns_InvMixColumns
    by (apply state_range_add;
        [now apply state_range_inv_sub_shift | now apply round_key_range]).
  apply add_round_key_cancel.
Qed.

(** The cipher on states. *)
Lemma decrypt_encrypt_state s :
  (0 < nr)%nat -> state_range s ->
  let W' := InverseExpansion tb nr W in
  let c := enc_final tb W nr (enc_rounds tb W (nr - 1) (add_round_key s (round_key W 0))) in
  dec_final tb W' (dec_rounds tb W' (nr - 1) (add_round_key c (round_key W' nr))) = s.
Proof.
  intros Hnr Hs W' c. subst W' c. unfold enc_final, dec_final.
  fold (sub_shift tb (enc_rounds tb W (nr - 1) (add_round_key s (round_key W 0)))).
  rewrite (round_key_inverse_outer nr), (round_key_inverse_outer 0%nat) by auto.
  rewrite add_round_key_cancel.
  assert (H0 : state_range (add_round_key s (round_key W 0)))
    by auto using state_range_add, round_key_range.
  rewrite dec_rounds_enc_rounds by (lia || assumption).
  match goal with
  | |- add_round_key ?x _ = _ =>
      change x with (inv_sub_shift tb (sub_shift tb (add_round_key s (round_key W 0))))
  end.
  rewrite (inv_sub_shift_sub_shift tb Htb) by assumption.
  apply add_round_key_cancel.
Qed.

Lemma encrypt_decrypt_state s :
  (0 < nr)%nat -> state_range s ->
  let W' := InverseExpansion tb nr W in
  let p := dec_final tb W' (dec_rounds tb W' (nr - 1) (add_round_key s (round_key W' nr))) in
  enc_final tb W nr (enc_rounds tb W (nr - 1) (add_round_key p (round_key W 0))) = s.
Proof.
  intros Hnr Hs W' p. subst W' p. unfold enc_final, dec_final.
  rewrite (round_key_inverse_outer nr), (round_key_inverse_outer 0%nat) by auto.
  match goal with
  | |- context [add_round_key (add_round_key ?x _) _] =>
      change x with (inv_sub_shift tb
        (dec_rounds tb (InverseExpansion tb nr W) (nr - 1)
           (add_round_key s (round_key W nr))))
  end.
  rewrite add_round_key_cancel.
  assert (H0 : state_range (add_round_key s (round_key W nr)))
    by auto using state_range_add, round_key_range.
  rewrite enc_rounds_dec_rounds by (lia || assumption).
  match goal with
  | |- add_round_key ?x _ = _ =>
      change x with (sub_shift tb (inv_sub_shift tb (add_round_key s (round_key W nr))))
  end.
  rewrite (sub_shift_inv_sub_shift tb Htb) by assumption.
  apply add_round_key_cancel.
Qed.

End Schedules.

(** * Blocks and states *)

Lemma PutStateColumn_take_drop (w c : Z) (out : list Z) :
  word_range w ->
  0 <= c ->
  4 * c + 4 <= Z.of_nat (length out) <= 2 ^ 64 ->
  PutStateColumn w c out =
  Some (take (Z.to_nat (4 * c)) out ++ octets_of_word w
        ++ drop (Z.to_nat (4 * c) + 4) out).
Proof.
  intros Hw Hc Hlen. rewrite PutStateColumn_inserts by lia.
  rewrite (u8_small (Z.land _ 0xff)) by apply byte_mask_range.
  rewrite byte3_shr by assumption.
  rewrite insert4_take_drop by lia. reflexivity.
Qed.

Lemma GetWordFromBuffer_pack (buffer : list Z) (c b0 b1 b2 b3 : Z) :
  0 <= c -> 4 * c + 3 < 2 ^ 64 ->
  buffer !! Z.to_nat (4 * c) = Some b0 ->
  buffer !! Z.to_nat (4 * c + 1) = Some b1 ->
  buffer !! Z.to_nat (4 * c + 2) = Some b2 ->
  buffer !! Z.to_nat (4 * c + 3) = Some b3 ->
  GetWordFromBuffer buffer c = Some (pack b0 b1 b2 b3).
Proof.
  intros Hc Hlt E0 E1 E2 E3. unfold GetWordFromBuffer, load.
  rewrite !at_col_small by lia. rewrite Z.add_0_r, E0, E1, E2, E3. reflexivity.
Qed.

Lemma store_state_octets s :
  state_range s -> store_state s = Some (octets_of_state s).
Proof.
  intros (H0 & H1 & H2 & H3). unfold store_state.
  rewrite (PutStateColumn_take_drop (col0 s) 0) by (assumption || simpl; lia).
  cbn [mbind option_bind].
  rewrite (PutStateColumn_take_drop (col1 s) 1) by (assumption || simpl; lia).
  cbn [mbind option_bind].
  rewrite (PutStateColumn_take_drop (col2 s) 2) by (assumption || simpl; lia).
  cbn [mbind option_bind].
  rewrite (PutStateColumn_take_drop (col3 s) 3) by (assumption || simpl; lia).
  reflexivity.
Qed.

Lemma load_state_octets s :
  state_range s -> load_state (octets_of_state s) = Some s.
Proof.
  intros (H0 & H1 & H2 & H3). destruct s as [c0 c1 c2 c3]. simpl in *.
  unfold load_state, octets_of_state, octets_of_word. cbn [col0 col1 col2 col3 app].
  erewrite (GetWordFromBuffer_pack _ 0) by (lia || reflexivity).
  cbn [mbind option_bind].
  erewrite (GetWordFromBuffer_pack _ 1) by (lia || reflexivity).
  cbn [mbind option_bind].
  erewrite (GetWordFromBuffer_pack _ 2) by (lia || reflexivity).
  cbn [mbind option_bind].
  erewrite (GetWordFromBuffer_pack _ 3) by (lia || reflexivity).
  cbn [mbind option_bind].
  now rewrite !pack_bytes.
Qed.

Lemma octets_of_state_length s : length (octets_of_state s) = 16%nat.
Proof. reflexivity. Qed.

Lemma octets_of_state_range s :
  state_range s -> Forall byte_range (octets_of_state s).
Proof.
  intros (H0 & H1 & H2 & H3). unfold octets_of_state, octets_of_word.
  repeat (apply Forall_cons; split); auto using byte3_range with octets.
Qed.

Lemma octets_of_word_pack b0 b1 b2 b3 :
  byte_range b0 -> byte_range b1 -> byte_range b2 -> byte_range b3 ->
  octets_of_word (pack b0 b1 b2 b3) = [b0; b1; b2; b3].
Proof.
  intros H0 H1 H2 H3. unfold octets_of_word.
  rewrite <- byte3_shr by now apply pack_range.
  rewrite <- byte2_shr, <- byte1_shr, <- byte0_land.
  now rewrite pack_get3, pack_get2, pack_get1, pack_get0.
Qed.

Lemma load_state_block block :
  length block = 16%nat -> Forall byte_range block ->
  exists s, load_state block = Some s /\ state_range s /\ octets_of_state s = block.
Proof.
  intros Hlen Hb.
  do 16 (destruct block as [|? block]; [discriminate|]).
  destruct block; [|discriminate]. clear Hlen.
  repeat match goal with
         | H : Forall _ (_ :: _) |- _ => apply Forall_cons in H; destruct H as [? H]
         end.
  eexists. split; [|split].
  - unfold load_state.
    erewrite (GetWordFromBuffer_pack _ 0) by (lia || reflexivity).
    cbn [mbind option_bind].
    erewrite (GetWordFromBuffer_pack _ 1) by (lia || reflexivity).
    cbn [mbind option_bind].
    erewrite (GetWordFromBuffer_pack _ 2) by (lia || reflexivity).
    cbn [mbind option_bind].
    erewrite (GetWordFromBuffer_pack _ 3) by (lia || reflexivity).
    reflexivity.
  - unfold state_range. cbn [col0 col1 col2 col3].
    repeat split; apply pack_range; assumption.
  - unfold octets_of_state. cbn [col0 col1 col2 col3].
    rewrite !octets_of_word_pack by assumption. reflexivity.
Qed.

(** * The key schedule *)

Lemma GetWordFromBuffer_range buffer c w :
  Forall byte_range buffer -> GetWordFromBuffer buffer c = Some w -> word_range w.
Proof.
  intros Hb. unfold GetWordFromBuffer, load.
  destruct (buffer !! Z.to_nat (at_col c 0)) as [b0|]; cbn [mbind option_bind]; [|discriminate 1].
  destruct (buffer !! Z.to_nat (at_col c 1)) as [b1|]; cbn [mbind option_bind]; [|discriminate 1].
  destruct (buffer !! Z.to_nat (at_col c 2)) as [b2|]; cbn [mbind option_bind]; [|discriminate 1].
  destruct (buffer !! Z.to_nat (at_col c 3)) as [b3|] eqn:E3; cbn [mbind option_bind]; [|discriminate 1].
  intros [= <-]. apply (pack_range b0 b1 b2 b3).
  eapply Forall_lookup_1; eauto.
Qed.

Lemma GetWordFromBuffer_is_Some buffer c :
  0 <= c -> 4 * c + 4 <= Z.of_nat (length buffer) <= 2 ^ 64 ->
  is_Some (GetWordFromBuffer buffer c).
Proof.
  intros Hc Hlen.
  destruct (lookup_lt_is_Some_2 buffer (Z.to_nat (4 * c))) as [b0 E0]; [lia|].
  destruct (lookup_lt_is_Some_2 buffer (Z.to_nat (4 * c + 1))) as [b1 E1]; [lia|].
  destruct (lookup_lt_is_Some_2 buffer (Z.to_nat (4 * c + 2))) as [b2 E2]; [lia|].
  destruct (lookup_lt_is_Some_2 buffer (Z.to_nat (4 * c + 3))) as [b3 E3]; [lia|].
  exists (pack b0 b1 b2 b3). apply GetWordFromBuffer_pack; (assumption || lia).
Qed.

Section KeySchedule.

Context (tb : Tables) (Htb : TablesFIPS tb).

Lemma load_words_Some buffer n :
  Forall byte_range buffer ->
  4 * Z.of_nat n <= Z.of_nat (length buffer) <= 2 ^ 64 ->
  exists W, load_words buffer n = Some W /\ length W = n /\ Forall word_range W.
Proof.
  intros Hb Hlen. unfold load_words.
  destruct (mapM_is_Some_2 (fun i => GetWordFromBuffer buffer (Z.of_nat i)) (seq 0 n))
    as [W HW].
  { apply Forall_forall. intros i Hi. apply list_elem_of_In, in_seq in Hi.
    apply GetWordFromBuffer_is_Some; lia. }
  exists W. split; [exact HW|]. apply mapM_Some_1 in HW. split.
  - apply Forall2_length in HW. now rewrite length_seq in HW.
  - clear Hlen. induction HW; constructor; eauto using GetWordFromBuffer_range.
Qed.

Lemma SubBytes_range w : word_range (SubBytes tb w).
Proof. unfold SubBytes. fold_pack. apply pack_range, Sbox_octet. assumption. Qed.

Lemma next_word_range nk W i :
  Forall word_range W -> word_range (next_word tb nk W i).
Proof.
  intros HW. unfold next_word. cbv zeta. apply word_range_lxor.
  - now apply word_at_range.
  - destruct (_ =? _)%nat.
    + apply word_range_lxor; [apply SubBytes_range | apply word_range_shl].
    + destruct (_ && _); [apply SubBytes_range | now apply word_at_range].
Qed.

Lemma expand_range nk n : forall W,
  Forall word_range W -> Forall word_range (expand tb nk n W).
Proof.
  induction n as [|n IH]; intros W HW; simpl; [assumption|].
  apply IH, Forall_app. split; [assumption|].
  constructor; [now apply next_word_range | constructor].
Qed.

Lemma expand_length nk n : forall W,
  length (expand tb nk n W) = (length W + n)%nat.
Proof.
  induction n as [|n IH]; intros W; simpl; [lia|].
  rewrite IH, length_app. simpl. lia.
Qed.

Lemma SetKey_Some key :
  Forall byte_range key ->
  length key = 16%nat \/ length key = 24%nat \/ length key = 32%nat ->
  exists v W,
    SetKey tb key = Some (mkEngine v W (InverseExpansion tb (Nr v) W)) /\
    length key = (4 * Nk v)%nat /\
    Forall word_range W /\
    length W = (4 * (Nr v + 1))%nat.
Proof.
  intros Hb Hlen. unfold SetKey, KeyExpansion.
  assert (Hv : exists v, variant_of_length (length key) = Some v /\
                         length key = (4 * Nk v)%nat).
  { destruct Hlen as [-> | [-> | ->]];
      [exists AES128 | exists AES192 | exists AES256]; split; reflexivity. }
  destruct Hv as (v & -> & Hk). cbn [mbind option_bind].
  destruct (load_words_Some key (Nk v) Hb) as (W0 & -> & HlW0 & HW0).
  { rewrite Hk. destruct v; simpl; lia. }
  cbn [mbind option_bind]. eexists v, _. split; [reflexivity|]. split; [exact Hk|].
  split.
  - now apply expand_range.
  - rewrite expand_length, HlW0. destruct v; reflexivity.
Qed.

End KeySchedule.

(** * The block engine *)

Section BlockEngine.

Context (tb : Tables) (Htb : TablesFIPS tb).
Context (v : Variant) (W : list Z).
Context (HW : Forall word_range W) (Hlen : length W = (4 * (Nr v + 1))%nat).

Let e : Engine := mkEngine v W (InverseExpansion tb (Nr v) W).

Lemma Nr_pos : (0 < Nr v)%nat.
Proof. destruct v; simpl; lia. Qed.

Lemma Encrypt_state block s :
  length block = 16%nat -> load_state block = Some s -> state_range s ->
  Encrypt tb e block =
  Some (octets_of_state
          (enc_final tb W (Nr v)
             (enc_rounds tb W (Nr v - 1) (add_round_key s (round_key W 0))))).
Proof.
  intros Hl Hload Hs. unfold Encrypt. rewrite decide_True by assumption.
  rewrite Hload. cbn [mbind option_bind forward_schedule variant e].
  apply store_state_octets. unfold enc_final.
  apply state_range_add; [|now apply round_key_range].
  apply (state_range_sub_shift tb Htb).
Qed.

Lemma Decrypt_state block s :
  length block = 16%nat -> load_state block = Some s -> state_range s ->
  let W' := InverseExpansion tb (Nr v) W in
  Decrypt tb e block =
  Some (octets_of_state
          (dec_final tb W'
             (dec_rounds tb W' (Nr v - 1) (add_round_key s (round_key W' (Nr v)))))).
Proof.
  intros Hl Hload Hs W'. unfold Decrypt. rewrite decide_True by assumption.
  rewrite Hload. cbn [mbind option_bind inverse_schedule variant e].
  apply store_state_octets. unfold dec_final.
  apply state_range_add;
    [|now apply round_key_range, (InverseExpansion_range tb Htb)].
  apply (state_range_inv_sub_shift tb Htb).
Qed.

Lemma enc_final_range r s : state_range (enc_final tb W r s).
Proof.
  unfold enc_final. apply state_range_add; [|now apply round_key_range].
  apply (state_range_sub_shift tb Htb).
Qed.

Lemma dec_final_range s :
  state_range (dec_final tb (InverseExpansion tb (Nr v) W) s).
Proof.
  unfold dec_final.
  apply state_range_add;
    [|now apply round_key_range, (InverseExpansion_range tb Htb)].
  apply (state_range_inv_sub_shift tb Htb).
Qed.

Lemma Decrypt_Encrypt_block block :
  length block = 16%nat -> Forall byte_range block ->
  exists c, Encrypt tb e block = Some c /\ length c = 16%nat /\
            Forall byte_range c /\ Decrypt tb e c = Some block.
Proof.
  intros Hl Hb. destruct (load_state_block block Hl Hb) as (s & Hload & Hs & Hoct).
  eexists. split; [exact (Encrypt_state block s Hl Hload Hs)|].
  split; [apply octets_of_state_length|].
  split; [apply octets_of_state_range, enc_final_range|].
  rewrite (Decrypt_state _ _ (octets_of_state_length _)
             (load_state_octets _ (enc_final_range _ _)) (enc_final_range _ _)).
  cbv zeta. rewrite (decrypt_encrypt_state tb Htb W (Nr v) HW Hlen s Nr_pos Hs).
  now rewrite Hoct.
Qed.

Lemma Encrypt_Decrypt_block block :
  length block = 16%nat -> Forall byte_range block ->
  exists p, Decrypt tb e block = Some p /\ length p = 16%nat /\
            Forall byte_range p /\ Encrypt tb e p = Some block.
Proof.
  intros Hl Hb. destruct (load_state_block block Hl Hb) as (s & Hload & Hs & Hoct).
  eexists. split; [exact (Decrypt_state block s Hl Hload Hs)|].
  split; [apply octets_of_state_length|].
  split; [apply octets_of_state_range, dec_final_range|].
  rewrite (Encrypt_state _ _ (octets_of_state_length _)
             (load_state_octets _ (dec_final_range _)) (dec_final_range _)).
  rewrite (encrypt_decrypt_state tb Htb W (Nr v) HW Hlen s Nr_pos Hs).
  now rewrite Hoct.
Qed.

End BlockEngine.

(** The tables [fips_tables] meet the requirements. *)
Lemma Sbox_table_inverse :
  all_octets (fun b =>
    (0 <=? table_get Sbox_table b) && (table_get Sbox_table b <? 256) &&
    (0 <=? table_get InverseSbox_table b) && (table_get InverseSbox_table b <? 256) &&
    (table_get InverseSbox_table (table_get Sbox_table b) =? b) &&
    (table_get Sbox_table (table_get InverseSbox_table b) =? b)) = true.
Proof. vm_compute. reflexivity. Qed.

Lemma fips_tables_FIPS : TablesFIPS fips_tables.
Proof.
  assert (H : forall b, byte_range b ->
    byte_range (table_get Sbox_table b) /\
    byte_range (table_get InverseSbox_table b) /\
    table_get InverseSbox_table (table_get Sbox_table b) = b /\
    table_get Sbox_table (table_get InverseSbox_table b) = b).
  { intros b Hb. pose proof (all_octets_spec _ Sbox_table_inverse b Hb) as E.
    cbv beta in E. rewrite !andb_true_iff in E.
    destruct E as (((((E1 & E2) & E3) & E4) & E5) & E6).
    unfold byte_range. change (2 ^ 8) with 256. lia. }
  constructor; cbn [fips_tables Sbox InverseSbox Enc0 Enc1 Enc2 Enc3 Dec0 Dec1 Dec2 Dec3];
    intros b Hb; try reflexivity; apply (H b Hb).
Qed.

Lemma fips_key_range n : (n <= 256)%nat -> Forall byte_range (fips_key n).
Proof.
  intros Hn. unfold fips_key. apply Forall_forall. intros x Hx.
  apply list_elem_of_In, in_map_iff in Hx. destruct Hx as (i & <- & Hi).
  apply in_seq in Hi. unfold byte_range. lia.
Qed.

Lemma fips_plaintext_range : Forall byte_range fips_plaintext.
Proof. unfold fips_plaintext. repeat constructor; unfold byte_range; lia. Qed.

(** * Claims on the cipher *)

(** C1. For every key of 16, 24 or 32 octets and every 16-octet block P,
    Decrypt(Encrypt(P)) = P and Encrypt(Decrypt(P)) = P: under one key
    Encrypt and Decrypt are inverse bijections of the 16-octet blocks.
    The tables are those of a FIPS 197 cipher ([TablesFIPS]). *)
Theorem Encrypt_Decrypt_inverse (tb : Tables) (key block : list Z) :
  TablesFIPS tb ->
  Forall byte_range key ->
  length key = 16%nat \/ length key = 24%nat \/ length key = 32%nat ->
  Forall byte_range block ->
  length block = 16%nat ->
  exists e c p,
    SetKey tb key = Some e /\
    Encrypt tb e block = Some c /\ length c = 16%nat /\ Forall byte_range c /\
    Decrypt tb e c = Some block /\
    Decrypt tb e block = Some p /\ length p = 16%nat /\ Forall byte_range p /\
    Encrypt tb e p = Some block.
Proof.
  intros Htb Hk Hkl Hb Hbl.
  destruct (SetKey_Some tb Htb key Hk Hkl) as (v & W & HS & _ & HW & HlW).
  destruct (Decrypt_Encrypt_block tb Htb v W HW HlW block Hbl Hb)
    as (c & Hc1 & Hc2 & Hc3 & Hc4).
  destruct (Encrypt_Decrypt_block tb Htb v W HW HlW block Hbl Hb)
    as (p & Hp1 & Hp2 & Hp3 & Hp4).
  exists (mkEngine v W (InverseExpansion tb (Nr v) W)), c, p. auto 10.
Qed.

Lemma Encrypt_Decrypt_inverse_witness :
  exists e c p,
    SetKey fips_tables (fips_key 16) = Some e /\
    Encrypt fips_tables e fips_plaintext = Some c /\
    length c = 16%nat /\ Forall byte_range c /\
    Decrypt fips_tables e c = Some fips_plaintext /\
    Decrypt fips_tables e fips_plaintext = Some p /\
    length p = 16%nat /\ Forall byte_range p /\
    Encrypt fips_tables e p = Some fips_plaintext.
Proof.
  apply (Encrypt_Decrypt_inverse fips_tables (fips_key 16) fips_plaintext).
  - exact fips_tables_FIPS.
  - apply fips_key_range. lia.
  - left. reflexivity.
  - exact fips_plaintext_range.
  - reflexivity.
Defined.

(** The model of the engine reproduces the vectors of FIPS 197,
    Appendix C, with the tables [fips_tables]. *)
Example fips_vector_128 :
  (e ← SetKey fips_tables (fips_key 16); Encrypt fips_tables e fips_plaintext)
  = Some fips_cipher128.
Proof. vm_compute. reflexivity. Qed.

Example fips_vector_192 :
  (e ← SetKey fips_tables (fips_key 24); Encrypt fips_tables e fips_plaintext)
  = Some fips_cipher192.
Proof. vm_compute. reflexivity. Qed.

Example fips_vector_256 :
  (e ← SetKey fips_tables (fips_key 32); Encrypt fips_tables e fips_plaintext)
  = Some fips_cipher256.
Proof. vm_compute. reflexivity. Qed.

(** The MixColumns example of FIPS 197 (round 1 of Appendix B). *)
Example MixColumns_d4bf5d30 : MixColumns 0xd4bf5d30 = 0x046681e5.
Proof. vm_compute. reflexivity. Qed.

Example InvMixColumns_046681e5 : InvMixColumns 0x046681e5 = 0xd4bf5d30.
Proof. vm_compute. reflexivity. Qed.

(** Under [TablesFIPS] every table holds values of its element type, so
    the casts of the entries to the word type keep their values. *)
Lemma TablesFIPS_typed (tb : Tables) : TablesFIPS tb -> TablesTyped tb.
Proof.
  intros Htb. pose proof (fips_Sbox_u8 tb Htb) as HS.
  pose proof (fips_InverseSbox_u8 tb Htb) as HI.
  constructor; try assumption; intros b Hb.
  - rewrite (fips_Enc0 tb Htb b Hb). unfold enc_base.
    rewrite rotr32_pack_0 by auto with octets. apply pack_range; auto with octets.
  - rewrite (fips_Enc1 tb Htb b Hb). unfold enc_base.
    rewrite rotr32_pack_8 by auto with octets. apply pack_range; auto with octets.
  - rewrite (fips_Enc2 tb Htb b Hb). unfold enc_base.
    rewrite rotr32_pack_16 by auto with octets. apply pack_range; auto with octets.
  - rewrite (fips_Enc3 tb Htb b Hb). unfold enc_base.
    rewrite rotr32_pack_24 by auto with octets. apply pack_range; auto with octets.
  - rewrite (fips_Dec0 tb Htb b Hb). unfold dec_base.
    rewrite rotr32_pack_0 by auto with octets. apply pack_range; auto with octets.
  - rewrite (fips_Dec1 tb Htb b Hb). unfold dec_base.
    rewrite rotr32_pack_8 by auto with octets. apply pack_range; auto with octets.
  - rewrite (fips_Dec2 tb Htb b Hb). unfold dec_base.
    rewrite rotr32_pack_16 by auto with octets. apply pack_range; auto with octets.
  - rewrite (fips_Dec3 tb Htb b Hb). unfold dec_base.
    rewrite rotr32_pack_24 by auto with octets. apply pack_range; auto with octets.
Qed.

(** * Claim on FastInvMixColumn *)

(** The right rotation by 8.k of the base word of an octet s is
    InvMixColumns of the column that holds s in row k: the Dec tables are
    the columns of the InvMixColumns matrix (0e 0b 0d 09) applied to the
    inverse S-box. *)
Lemma dec_base_InvMixColumns s :
  byte_range s ->
  rotr32 (dec_base s) 0 = InvMixColumns (pack s 0 0 0) /\
  rotr32 (dec_base s) 8 = InvMixColumns (pack 0 s 0 0) /\
  rotr32 (dec_base s) 16 = InvMixColumns (pack 0 0 s 0) /\
  rotr32 (dec_base s) 24 = InvMixColumns (pack 0 0 0 s).
Proof.
  intros Hs. assert (H0 : byte_range 0) by (unfold byte_range; lia).
  unfold dec_base.
  rewrite rotr32_pack_0, rotr32_pack_8, rotr32_pack_16, rotr32_pack_24
    by auto with octets.
  rewrite !InvMixColumns_pack by assumption.
  rewrite !gmul_0, ?Z.lxor_0_r, ?Z.lxor_0_l. repeat split; reflexivity.
Qed.

(** The direction of the rotation matters: the right rotation of the base
    word of the octet 1 by 8 is InvMixColumns of the column (0, 1, 0, 0);
    the left rotation is another word. *)
Example rotation_direction :
  rotr32 (dec_base 1) 8 = 0x0b0e090d /\
  InvMixColumns 0x00010000 = 0x0b0e090d /\
  rotl32 (dec_base 1) 8 = 0x090d0b0e.
Proof. vm_compute. repeat split; reflexivity. Qed.

(** C2. For every 32-bit word w, [FastInvMixColumn w] is
    Dec0[S[byte3 w]] XOR Dec1[S[byte2 w]] XOR Dec2[S[byte1 w]] XOR
    Dec3[S[byte0 w]], the Dec tables being indexed through the forward
    S-box S, whatever the tables hold.  And with Dec tables built from the
    inverse S-box IS and the InvMixColumns matrix, Dec_k[b] being the word
    (0e.IS[b], 09.IS[b], 0d.IS[b], 0b.IS[b]) rotated right by 8.k, this
    value is InvMixColumns of w itself, a word that did not go through
    InvSubBytes. *)
Theorem FastInvMixColumn_formula_InvMixColumns (tb : Tables) (w : Z) :
  word_range w ->
  FastInvMixColumn tb w =
    Z.lxor (Z.lxor (Z.lxor
      (Dec0 tb (Sbox tb (byte3 w)))
      (Dec1 tb (Sbox tb (byte2 w))))
      (Dec2 tb (Sbox tb (byte1 w))))
      (Dec3 tb (Sbox tb (byte0 w))) /\
  ((forall b, byte_range b -> byte_range (Sbox tb b)) ->
   (forall b, byte_range b -> InverseSbox tb (Sbox tb b) = b) ->
   (forall b, byte_range b -> Dec0 tb b = rotr32 (dec_base (InverseSbox tb b)) 0) ->
   (forall b, byte_range b -> Dec1 tb b = rotr32 (dec_base (InverseSbox tb b)) 8) ->
   (forall b, byte_range b -> Dec2 tb b = rotr32 (dec_base (InverseSbox tb b)) 16) ->
   (forall b, byte_range b -> Dec3 tb b = rotr32 (dec_base (InverseSbox tb b)) 24) ->
   FastInvMixColumn tb w = InvMixColumns w).
Proof.
  intros Hw. split.
  - unfold FastInvMixColumn.
    now rewrite byte3_shr, byte2_shr, byte1_shr, byte0_land.
  - intros HS Hinv H0 H1 H2 H3.
    now apply FastInvMixColumn_is_InvMixColumns.
Qed.

Lemma FastInvMixColumn_formula_InvMixColumns_witness :
  FastInvMixColumn fips_tables 0x00010000 =
    Z.lxor (Z.lxor (Z.lxor
      (Dec0 fips_tables (Sbox fips_tables (byte3 0x00010000)))
      (Dec1 fips_tables (Sbox fips_tables (byte2 0x00010000))))
      (Dec2 fips_tables (Sbox fips_tables (byte1 0x00010000))))
      (Dec3 fips_tables (Sbox fips_tables (byte0 0x00010000))) /\
  FastInvMixColumn fips_tables 0x00010000 = InvMixColumns 0x00010000.
Proof.
  destruct (FastInvMixColumn_formula_InvMixColumns fips_tables 0x00010000)
    as [F G].
  - unfold word_range; lia.
  - split; [exact F|]. apply G.
    + exact (fips_Sbox_u8 _ fips_tables_FIPS).
    + exact (fips_Inverse_Sbox _ fips_tables_FIPS).
    + reflexivity.
    + reflexivity.
    + reflexivity.
    + reflexivity.
Defined.

(** * Instances of the claims on the table-driven primitives *)

Lemma sample_state_range : state_range sample_state.
Proof. unfold state_range, word_range. simpl. lia. Qed.

Lemma MixColShiftRow_formula_witness :
  MixColShiftRow fips_tables 1 sample_state =
  Z.lxor (Z.lxor (Z.lxor
    (Enc0 fips_tables (byte3 (sel sample_state (1 mod 4))))
    (Enc1 fips_tables (byte2 (sel sample_state ((1 + 1) mod 4)))))
    (Enc2 fips_tables (byte1 (sel sample_state ((1 + 2) mod 4)))))
    (Enc3 fips_tables (byte0 (sel sample_state ((1 + 3) mod 4)))).
Proof.
  apply (MixColShiftRow_formula fips_tables 1 sample_state).
  - lia.
  - exact sample_state_range.
Defined.

Lemma InvMixColShiftRow_formula_witness :
  InvMixColShiftRow fips_tables 1 sample_state =
  Z.lxor (Z.lxor (Z.lxor
    (Dec0 fips_tables (byte3 (sel sample_state (1 mod 4))))
    (Dec1 fips_tables (byte2 (sel sample_state ((1 + 3) mod 4)))))
    (Dec2 fips_tables (byte1 (sel sample_state ((1 + 2) mod 4)))))
    (Dec3 fips_tables (byte0 (sel sample_state ((1 + 1) mod 4))))
  /\
  InvMixColShiftRow fips_tables 1 sample_state =
  Z.lxor (Z.lxor (Z.lxor
    (Dec0 fips_tables (byte3 (InvShiftRows_col sample_state 1)))
    (Dec1 fips_tables (byte2 (InvShiftRows_col sample_state 1))))
    (Dec2 fips_tables (byte1 (InvShiftRows_col sample_state 1))))
    (Dec3 fips_tables (byte0 (InvShiftRows_col sample_state 1))).
Proof.
  apply (InvMixColShiftRow_formula fips_tables 1 sample_state).
  - lia.
  - exact sample_state_range.
Defined.

Lemma InvSubBytesShiftRows_SubBytesShiftRows_witness :
  InvSubBytesShiftRows fips_tables 2 (sub_shift fips_tables sample_state)
  = sel sample_state 2.
Proof.
  apply (InvSubBytesShiftRows_SubBytesShiftRows fips_tables sample_state).
  - exact (fips_Sbox_u8 _ fips_tables_FIPS).
  - exact (fips_Inverse_Sbox _ fips_tables_FIPS).
  - exact sample_state_range.
  - intros k Hk. destruct (column_cases k Hk) as [-> | [-> | [-> | ->]]]; reflexivity.
  - lia.
Defined.

(** * Further properties of the word primitives *)

Lemma RotWord_arith w :
  word_range w -> RotWord w = (w mod 2 ^ 24) * 2 ^ 8 + w / 2 ^ 24.
Proof.
  intros Hw. unfold RotWord, RotateLeft, shl, shr, u32.
  change 0xffffffff with (Z.ones 32). change (32 - 8) with 24.
  rewrite Z.shiftl_mul_pow2, Z.shiftr_div_pow2 by lia.
  replace ((w * 2 ^ 8) mod 2 ^ 32) with ((w mod 2 ^ 24) * 2 ^ 8)
    by (unfold word_range in Hw; Z.div_mod_to_equations; lia).
  rewrite Z.lor_comm, lor_add_disjoint
    by (unfold word_range in Hw; Z.div_mod_to_equations; lia).
  rewrite Z.land_ones by lia. unfold word_range in Hw.
  rewrite Z.mod_small by (Z.div_mod_to_equations; lia). lia.
Qed.

Lemma RotWord_pack_octets a b c d :
  byte_range a -> byte_range b -> byte_range c -> byte_range d ->
  RotWord (pack a b c d) = pack b c d a.
Proof.
  intros Ha Hb Hc Hd.
  rewrite RotWord_arith by now apply pack_range.
  rewrite !pack_be32 by assumption.
  unfold be32, byte_range in *. Z.div_mod_to_equations. lia.
Qed.

Lemma SubBytes_pack tb a b c d :
  byte_range a -> byte_range b -> byte_range c -> byte_range d ->
  SubBytes tb (pack a b c d) = pack (Sbox tb a) (Sbox tb b) (Sbox tb c) (Sbox tb d).
Proof.
  intros Ha Hb Hc Hd. unfold SubBytes. fold_pack.
  now rewrite pack_get3, pack_get2, pack_get1, pack_get0.
Qed.

(** X1. RotWord moves the four octets of a word one place up: the word
    made of the octets a, b, c, d (a most significant) becomes the word
    made of b, c, d, a. *)
Theorem RotWord_rotates_octets (a b c d : Z) :
  byte_range a -> byte_range b -> byte_range c -> byte_range d ->
  RotWord (be32 a b c d) = be32 b c d a.
Proof.
  intros Ha Hb Hc Hd. rewrite <- !pack_be32 by assumption.
  now apply RotWord_pack_octets.
Qed.

Lemma RotWord_rotates_octets_witness :
  RotWord (be32 0x09 0xcf 0x4f 0x3c) = be32 0xcf 0x4f 0x3c 0x09.
Proof.
  apply (RotWord_rotates_octets 0x09 0xcf 0x4f 0x3c); unfold byte_range; lia.
Defined.

(** X2. Four applications of RotWord give back a 32-bit word. *)
Theorem RotWord_four_times (w : Z) :
  word_range w -> iterate 4 RotWord w = w.
Proof.
  intros Hw. pose proof (pack_octets w Hw) as E.
  set (a := Z.land (shr w 24) 0xff) in E. set (b := Z.land (shr w 16) 0xff) in E.
  set (c := Z.land (shr w 8) 0xff) in E. set (d := Z.land w 0xff) in E.
  assert (Ha : byte_range a) by apply byte_mask_range.
  assert (Hb : byte_range b) by apply byte_mask_range.
  assert (Hc : byte_range c) by apply byte_mask_range.
  assert (Hd : byte_range d) by apply byte_mask_range.
  rewrite <- E. cbn [iterate].
  now rewrite !RotWord_pack_octets.
Qed.

Lemma RotWord_four_times_witness : iterate 4 RotWord 0x09cf4f3c = 0x09cf4f3c.
Proof. apply (RotWord_four_times 0x09cf4f3c). unfold word_range; lia. Defined.

Lemma SubBytes_get (tb : Tables) (w : Z) :
  (forall b, byte_range b -> byte_range (Sbox tb b)) ->
  word_range w ->
  byte3 (SubBytes tb w) = Sbox tb (byte3 w) /\
  byte2 (SubBytes tb w) = Sbox tb (byte2 w) /\
  byte1 (SubBytes tb w) = Sbox tb (byte1 w) /\
  byte0 (SubBytes tb w) = Sbox tb (byte0 w) /\
  word_range (SubBytes tb w).
Proof.
  intros HS Hw.
  assert (Hm : forall x, byte_range (Sbox tb (Z.land x 0xff)))
    by (intros; apply HS, byte_mask_range).
  assert (Hr : word_range (SubBytes tb w))
    by (unfold SubBytes; fold_pack; apply pack_range, Hm).
  split; [|split; [|split; [|split]]]; try exact Hr.
  - rewrite <- (byte3_shr (SubBytes tb w)) by assumption.
    unfold SubBytes. fold_pack. rewrite pack_get3 by apply Hm.
    now rewrite byte3_shr.
  - rewrite <- (byte2_shr (SubBytes tb w)).
    unfold SubBytes. fold_pack. rewrite pack_get2 by apply Hm.
    now rewrite byte2_shr.
  - rewrite <- (byte1_shr (SubBytes tb w)).
    unfold SubBytes. fold_pack. rewrite pack_get1 by apply Hm.
    now rewrite byte1_shr.
  - rewrite <- (byte0_land (SubBytes tb w)).
    unfold SubBytes. fold_pack. rewrite pack_get0 by apply Hm.
    now rewrite byte0_land.
Qed.

(** X3. SubBytes substitutes each octet of a word on its own: octet k of
    SubBytes(w) is Sbox[octet k of w], and the result is a 32-bit word.
    (The entries of Sbox are octets.) *)
Theorem SubBytes_octets (tb : Tables) (w : Z) :
  (forall b, byte_range b -> byte_range (Sbox tb b)) ->
  word_range w ->
  byte3 (SubBytes tb w) = Sbox tb (byte3 w) /\
  byte2 (SubBytes tb w) = Sbox tb (byte2 w) /\
  byte1 (SubBytes tb w) = Sbox tb (byte1 w) /\
  byte0 (SubBytes tb w) = Sbox tb (byte0 w) /\
  word_range (SubBytes tb w).
Proof. intros HS Hw. now apply SubBytes_get. Qed.

Lemma SubBytes_octets_witness :
  byte3 (SubBytes fips_tables 0xcf4f3c09) = Sbox fips_tables (byte3 0xcf4f3c09) /\
  byte2 (SubBytes fips_tables 0xcf4f3c09) = Sbox fips_tables (byte2 0xcf4f3c09) /\
  byte1 (SubBytes fips_tables 0xcf4f3c09) = Sbox fips_tables (byte1 0xcf4f3c09) /\
  byte0 (SubBytes fips_tables 0xcf4f3c09) = Sbox fips_tables (byte0 0xcf4f3c09) /\
  word_range (SubBytes fips_tables 0xcf4f3c09).
Proof.
  apply (SubBytes_octets fips_tables 0xcf4f3c09).
  - exact (fips_Sbox_u8 _ fips_tables_FIPS).
  - unfold word_range; lia.
Defined.

(** X4. SubBytes and RotWord commute on 32-bit words, so the key schedule
    may apply them in either order. *)
Theorem SubBytes_RotWord_commute (tb : Tables) (w : Z) :
  (forall b, byte_range b -> byte_range (Sbox tb b)) ->
  word_range w ->
  SubBytes tb (RotWord w) = RotWord (SubBytes tb w).
Proof.
  intros HS Hw. pose proof (pack_octets w Hw) as E.
  set (a := Z.land (shr w 24) 0xff) in E. set (b := Z.land (shr w 16) 0xff) in E.
  set (c := Z.land (shr w 8) 0xff) in E. set (d := Z.land w 0xff) in E.
  assert (Ha : byte_range a) by apply byte_mask_range.
  assert (Hb : byte_range b) by apply byte_mask_range.
  assert (Hc : byte_range c) by apply byte_mask_range.
  assert (Hd : byte_range d) by apply byte_mask_range.
  rewrite <- E.
  rewrite RotWord_pack_octets, !SubBytes_pack, RotWord_pack_octets by auto.
  reflexivity.
Qed.

Lemma SubBytes_RotWord_commute_witness :
  SubBytes fips_tables (RotWord 0x09cf4f3c) = RotWord (SubBytes fips_tables 0x09cf4f3c).
Proof.
  apply (SubBytes_RotWord_commute fips_tables 0x09cf4f3c).
  - exact (fips_Sbox_u8 _ fips_tables_FIPS).
  - unfold word_range; lia.
Defined.

(** X5. When the entries of Sbox are octets and InverseSbox[Sbox[b]] = b
    for every octet b, SubBytes is injective on 32-bit words. *)
Theorem SubBytes_injective (tb : Tables) (x y : Z) :
  (forall b, byte_range b -> byte_range (Sbox tb b)) ->
  (forall b, byte_range b -> InverseSbox tb (Sbox tb b) = b) ->
  word_range x -> word_range y ->
  SubBytes tb x = SubBytes tb y -> x = y.
Proof.
  intros HS Hinv Hx Hy E.
  destruct (SubBytes_get tb x HS Hx) as (X3 & X2 & X1 & X0 & _).
  destruct (SubBytes_get tb y HS Hy) as (Y3 & Y2 & Y1 & Y0 & _).
  rewrite E in X3, X2, X1, X0.
  rewrite <- (pack_bytes x Hx), <- (pack_bytes y Hy).
  rewrite <- (Hinv (byte3 x)), <- (Hinv (byte2 x)), <- (Hinv (byte1 x)),
    <- (Hinv (byte0 x)) by auto using byte3_range with octets.
  rewrite <- X3, <- X2, <- X1, <- X0, Y3, Y2, Y1, Y0.
  now rewrite !Hinv by auto using byte3_range with octets.
Qed.

Lemma SubBytes_injective_witness : RotWord 0x3c09cf4f = 0x09cf4f3c.
Proof.
  apply (SubBytes_injective fips_tables (RotWord 0x3c09cf4f) 0x09cf4f3c).
  - exact (fips_Sbox_u8 _ fips_tables_FIPS).
  - exact (fips_Inverse_Sbox _ fips_tables_FIPS).
  - unfold word_range; vm_compute; split; [discriminate | reflexivity].
  - unfold word_range; lia.
  - vm_compute. reflexivity.
Defined.

Lemma SubBytesShiftRows_ShiftRows_col (tb : Tables) (c : Z) (s : State) :
  0 <= c < 4 ->
  state_range s ->
  SubBytesShiftRows tb c s = SubBytes tb (ShiftRows_col s c).
Proof.
  intros Hc Hs. unfold ShiftRows_col.
  rewrite SubBytes_pack
    by auto using byte3_range, byte2_range, byte1_range, byte0_range, sel_range.
  unfold SubBytesShiftRows. fold_pack.
  rewrite !rot_index_mod by lia. rewrite Z.add_0_r.
  rewrite byte3_shr by (apply sel_range; assumption).
  now rewrite byte2_shr, byte1_shr, byte0_land.
Qed.

(** X6. SubBytesShiftRows(c, state) is SubBytes of column c of
    ShiftRows(state): row r of the result comes from column (c + r) mod 4. *)
Theorem SubBytesShiftRows_SubBytes_ShiftRows (tb : Tables) (c : Z) (s : State) :
  0 <= c < 4 ->
  state_range s ->
  SubBytesShiftRows tb c s = SubBytes tb (ShiftRows_col s c).
Proof. intros Hc Hs. now apply SubBytesShiftRows_ShiftRows_col. Qed.

Lemma SubBytesShiftRows_SubBytes_ShiftRows_witness :
  SubBytesShiftRows fips_tables 3 sample_state
  = SubBytes fips_tables (ShiftRows_col sample_state 3).
Proof.
  apply (SubBytesShiftRows_SubBytes_ShiftRows fips_tables 3 sample_state).
  - lia.
  - exact sample_state_range.
Defined.

(** X7. The converse of the final-round inversion: when the entries of
    InverseSbox are octets and Sbox[InverseSbox[b]] = b for every octet b,
    and t[k] = InvSubBytesShiftRows(k, s) for each k in [0,4), then
    SubBytesShiftRows(c, t) = s[c] for each column c in [0,4). *)
Theorem SubBytesShiftRows_InvSubBytesShiftRows
    (tb : Tables) (s t : State) (c : Z) :
  (forall b, byte_range b -> byte_range (InverseSbox tb b)) ->
  (forall b, byte_range b -> Sbox tb (InverseSbox tb b) = b) ->
  state_range s ->
  (forall k, 0 <= k < 4 -> sel t k = InvSubBytesShiftRows tb k s) ->
  0 <= c < 4 ->
  SubBytesShiftRows tb c t = sel s c.
Proof.
  intros HS Hinv Hs Ht Hc.
  assert (E : t = inv_sub_shift tb s).
  { destruct t as [t0 t1 t2 t3]. unfold inv_sub_shift.
    pose proof (Ht 0 ltac:(lia)) as E0. pose proof (Ht 1 ltac:(lia)) as E1.
    pose proof (Ht 2 ltac:(lia)) as E2. pose proof (Ht 3 ltac:(lia)) as E3.
    simpl in E0, E1, E2, E3. congruence. }
  rewrite E. now apply SubBytesShiftRows_inv_sub_shift.
Qed.

Lemma SubBytesShiftRows_InvSubBytesShiftRows_witness :
  SubBytesShiftRows fips_tables 1 (inv_sub_shift fips_tables sample_state)
  = sel sample_state 1.
Proof.
  apply (SubBytesShiftRows_InvSubBytesShiftRows fips_tables sample_state).
  - exact (fips_InverseSbox_u8 _ fips_tables_FIPS).
  - exact (fips_Sbox_Inverse _ fips_tables_FIPS).
  - exact sample_state_range.
  - intros k Hk. destruct (column_cases k Hk) as [-> | [-> | [-> | ->]]]; reflexivity.
  - lia.
Defined.

Lemma InvMixColShiftRow_sub_shift (tb : Tables) (s : State) (c : Z) :
  (forall b, byte_range b -> byte_range (Sbox tb b)) ->
  0 <= c < 4 ->
  InvMixColShiftRow tb c (sub_shift tb s) = FastInvMixColumn tb (sel s c).
Proof.
  intros HS Hc.
  assert (Hm : forall x, byte_range (Sbox tb (Z.land x 0xff)))
    by (intros; apply HS, byte_mask_range).
  unfold InvMixColShiftRow, FastInvMixColumn, sub_shift.
  column_case c Hc; eval_rot_index; cbn [sel col0 col1 col2 col3];
    unfold SubBytesShiftRows; eval_rot_index; fold_pack;
    rewrite pack_get3, pack_get2, pack_get1, pack_get0 by apply Hm;
    reflexivity.
Qed.

Lemma state_of_columns (t : State) (f : Z -> Z) :
  (forall k, 0 <= k < 4 -> sel t k = f k) ->
  t = mkState (f 0) (f 1) (f 2) (f 3).
Proof.
  intros Ht. destruct t as [t0 t1 t2 t3].
  pose proof (Ht 0 ltac:(lia)) as E0. pose proof (Ht 1 ltac:(lia)) as E1.
  pose proof (Ht 2 ltac:(lia)) as E2. pose proof (Ht 3 ltac:(lia)) as E3.
  simpl in E0, E1, E2, E3. congruence.
Qed.

(** X8. Whatever the tables hold (the entries of Sbox being octets), the
    table round of decryption applied to a state that went through
    SubBytesShiftRows is FastInvMixColumn of the original column: if
    t[k] = SubBytesShiftRows(k, s) for each k, then
    InvMixColShiftRow(c, t) = FastInvMixColumn(s[c]). *)
Theorem InvMixColShiftRow_after_SubBytesShiftRows
    (tb : Tables) (s t : State) (c : Z) :
  (forall b, byte_range b -> byte_range (Sbox tb b)) ->
  (forall k, 0 <= k < 4 -> sel t k = SubBytesShiftRows tb k s) ->
  0 <= c < 4 ->
  InvMixColShiftRow tb c t = FastInvMixColumn tb (sel s c).
Proof.
  intros HS Ht Hc.
  rewrite (state_of_columns t (fun k => SubBytesShiftRows tb k s) Ht).
  now apply InvMixColShiftRow_sub_shift.
Qed.

Lemma InvMixColShiftRow_after_SubBytesShiftRows_witness :
  InvMixColShiftRow fips_tables 2 (sub_shift fips_tables sample_state)
  = FastInvMixColumn fips_tables (sel sample_state 2).
Proof.
  apply (InvMixColShiftRow_after_SubBytesShiftRows fips_tables sample_state).
  - exact (fips_Sbox_u8 _ fips_tables_FIPS).
  - intros k Hk. destruct (column_cases k Hk) as [-> | [-> | [-> | ->]]]; reflexivity.
  - lia.
Defined.

(** * Further properties of the table rounds *)

(** X9. With the tables of a FIPS 197 cipher, MixColShiftRow(c, state) is
    MixColumns of SubBytes of column c of ShiftRows(state), as the comment
    of the function says. *)
Theorem MixColShiftRow_SubBytes_ShiftRows_MixColumns
    (tb : Tables) (c : Z) (s : State) :
  TablesFIPS tb ->
  0 <= c < 4 ->
  state_range s ->
  MixColShiftRow tb c s = MixColumns (SubBytes tb (ShiftRows_col s c)).
Proof.
  intros Htb Hc Hs. rewrite (MixColShiftRow_MixColumns tb Htb).
  now rewrite SubBytesShiftRows_ShiftRows_col.
Qed.

Lemma MixColShiftRow_SubBytes_ShiftRows_MixColumns_witness :
  MixColShiftRow fips_tables 1 sample_state
  = MixColumns (SubBytes fips_tables (ShiftRows_col sample_state 1)).
Proof.
  apply (MixColShiftRow_SubBytes_ShiftRows_MixColumns fips_tables 1 sample_state).
  - exact fips_tables_FIPS.
  - lia.
  - exact sample_state_range.
Defined.

(** X10. With the tables of a FIPS 197 cipher, InvMixColShiftRow(c, state)
    is InvMixColumns of InvSubBytesShiftRows(c, state), for every column
    index and every state. *)
Theorem InvMixColShiftRow_InvSubBytes_InvMixColumns
    (tb : Tables) (c : Z) (s : State) :
  TablesFIPS tb ->
  InvMixColShiftRow tb c s = InvMixColumns (InvSubBytesShiftRows tb c s).
Proof. intros Htb. apply (InvMixColShiftRow_InvMixColumns tb Htb). Qed.

Lemma InvMixColShiftRow_InvSubBytes_InvMixColumns_witness :
  InvMixColShiftRow fips_tables 1 sample_state
  = InvMixColumns (InvSubBytesShiftRows fips_tables 1 sample_state).
Proof.
  apply (InvMixColShiftRow_InvSubBytes_InvMixColumns fips_tables 1 sample_state).
  exact fips_tables_FIPS.
Defined.

(** X11. With the tables of a FIPS 197 cipher, FastInvMixColumn takes the
    MixColumns layer off an encryption round: FastInvMixColumn of
    MixColShiftRow(c, state) is SubBytesShiftRows(c, state). *)
Theorem FastInvMixColumn_MixColShiftRow (tb : Tables) (c : Z) (s : State) :
  TablesFIPS tb ->
  FastInvMixColumn tb (MixColShiftRow tb c s) = SubBytesShiftRows tb c s.
Proof.
  intros Htb.
  rewrite (FastInvMixColumn_InvMixColumns tb Htb), (MixColShiftRow_MixColumns tb Htb).
  apply InvMixColumns_MixColumns.
  unfold SubBytesShiftRows. fold_pack. apply pack_range, (Sbox_octet tb Htb).
Qed.

Lemma FastInvMixColumn_MixColShiftRow_witness :
  FastInvMixColumn fips_tables (MixColShiftRow fips_tables 2 sample_state)
  = SubBytesShiftRows fips_tables 2 sample_state.
Proof.
  apply (FastInvMixColumn_MixColShiftRow fips_tables 2 sample_state).
  exact fips_tables_FIPS.
Defined.

(** X12. With Dec tables that are the right rotations of the base word,
    FastInvMixColumn is linear over AddRoundKey: it maps the XOR of two
    words to the XOR of their images, and 0 to 0.  The inverse key
    schedule rests on this. *)
Theorem FastInvMixColumn_AddRoundKey (tb : Tables) (x k : Z) :
  (forall b, byte_range b -> byte_range (Sbox tb b)) ->
  (forall b, byte_range b -> InverseSbox tb (Sbox tb b) = b) ->
  (forall b, byte_range b -> Dec0 tb b = rotr32 (dec_base (InverseSbox tb b)) 0) ->
  (forall b, byte_range b -> Dec1 tb b = rotr32 (dec_base (InverseSbox tb b)) 8) ->
  (forall b, byte_range b -> Dec2 tb b = rotr32 (dec_base (InverseSbox tb b)) 16) ->
  (forall b, byte_range b -> Dec3 tb b = rotr32 (dec_base (InverseSbox tb b)) 24) ->
  FastInvMixColumn tb (AddRoundKey x k)
    = AddRoundKey (FastInvMixColumn tb x) (FastInvMixColumn tb k) /\
  FastInvMixColumn tb 0 = 0.
Proof.
  intros HS Hinv H0 H1 H2 H3.
  rewrite !(FastInvMixColumn_is_InvMixColumns tb HS Hinv H0 H1 H2 H3).
  split; [apply InvMixColumns_lxor | reflexivity].
Qed.

Lemma FastInvMixColumn_AddRoundKey_witness :
  FastInvMixColumn fips_tables (AddRoundKey 0x00112233 0x09cf4f3c)
    = AddRoundKey (FastInvMixColumn fips_tables 0x00112233)
                  (FastInvMixColumn fips_tables 0x09cf4f3c) /\
  FastInvMixColumn fips_tables 0 = 0.
Proof.
  apply (FastInvMixColumn_AddRoundKey fips_tables 0x00112233 0x09cf4f3c).
  - exact (fips_Sbox_u8 _ fips_tables_FIPS).
  - exact (fips_Inverse_Sbox _ fips_tables_FIPS).
  - reflexivity.
  - reflexivity.
  - reflexivity.
  - reflexivity.
Defined.

(** X13. One round of the equivalent inverse cipher, on the functions of
    the source.  With the tables of a FIPS 197 cipher, let e[j] =
    AddRoundKey(MixColShiftRow(j, s), k[j]) be an encryption round with the
    round key k, and t[j] = SubBytesShiftRows(j, e).  Then the decryption
    round with the key FastInvMixColumn(k[c]) gives back the last layer:
    AddRoundKey(InvMixColShiftRow(c, t), FastInvMixColumn(k[c])) =
    SubBytesShiftRows(c, s). *)
Theorem InvMixColShiftRow_undoes_MixColShiftRow
    (tb : Tables) (s k e t : State) (c : Z) :
  TablesFIPS tb ->
  (forall j, 0 <= j < 4 ->
     sel e j = AddRoundKey (MixColShiftRow tb j s) (sel k j)) ->
  (forall j, 0 <= j < 4 -> sel t j = SubBytesShiftRows tb j e) ->
  0 <= c < 4 ->
  AddRoundKey (InvMixColShiftRow tb c t) (FastInvMixColumn tb (sel k c))
  = SubBytesShiftRows tb c s.
Proof.
  intros Htb He Ht Hc.
  rewrite (state_of_columns t (fun j => SubBytesShiftRows tb j e) Ht).
  change (mkState _ _ _ _) with (sub_shift tb e).
  rewrite InvMixColShiftRow_sub_shift by (apply (fips_Sbox_u8 tb Htb) || assumption).
  rewrite (He c Hc). unfold AddRoundKey.
  rewrite !(FastInvMixColumn_InvMixColumns tb Htb), InvMixColumns_lxor.
  rewrite Z.lxor_assoc, Z.lxor_nilpotent, Z.lxor_0_r.
  rewrite (MixColShiftRow_MixColumns tb Htb).
  apply InvMixColumns_MixColumns.
  unfold SubBytesShiftRows. fold_pack. apply pack_range, (Sbox_octet tb Htb).
Qed.

Lemma InvMixColShiftRow_undoes_MixColShiftRow_witness :
  AddRoundKey
    (InvMixColShiftRow fips_tables 1
       (sub_shift fips_tables
          (enc_round fips_tables [0; 0; 0; 0; 1; 2; 3; 4] 1 sample_state)))
    (FastInvMixColumn fips_tables (sel (round_key [0; 0; 0; 0; 1; 2; 3; 4] 1) 1))
  = SubBytesShiftRows fips_tables 1 sample_state.
Proof.
  apply (InvMixColShiftRow_undoes_MixColShiftRow fips_tables sample_state
           (round_key [0; 0; 0; 0; 1; 2; 3; 4] 1)
           (enc_round fips_tables [0; 0; 0; 0; 1; 2; 3; 4] 1 sample_state)).
  - exact fips_tables_FIPS.
  - intros j Hj. destruct (column_cases j Hj) as [-> | [-> | [-> | ->]]]; reflexivity.
  - intros j Hj. destruct (column_cases j Hj) as [-> | [-> | [-> | ->]]]; reflexivity.
  - lia.
Defined.

(** * Further properties of the buffer primitives *)

(** X14. Storing a column leaves the other columns as they were: on a
    16-octet buffer, after PutStateColumn(w, c, buffer) the word read by
    GetWordFromBuffer at another column c' is the word read before. *)
Theorem GetWordFromBuffer_other_column (w c c' : Z) (buffer : list Z) :
  0 <= c < 4 -> 0 <= c' < 4 -> c <> c' ->
  length buffer = 16%nat ->
  exists buffer',
    PutStateColumn w c buffer = Some buffer' /\
    GetWordFromBuffer buffer' c' = GetWordFromBuffer buffer c'.
Proof.
  intros Hc Hc' Hne Hlen. eexists. split.
  - apply PutStateColumn_inserts; rewrite ?Hlen; lia.
  - unfold GetWordFromBuffer, load. rewrite !at_col_small by lia.
    now rewrite !list_lookup_insert_ne by lia.
Qed.

Lemma GetWordFromBuffer_other_column_witness :
  exists buffer',
    PutStateColumn 0xdeadbeef 1 fips_plaintext = Some buffer' /\
    GetWordFromBuffer buffer' 2 = GetWordFromBuffer fips_plaintext 2.
Proof.
  apply (GetWordFromBuffer_other_column 0xdeadbeef 1 2 fips_plaintext).
  - lia.
  - lia.
  - lia.
  - reflexivity.
Defined.

Lemma take_lookup4_drop (l : list Z) (i : nat) b0 b1 b2 b3 :
  l !! i = Some b0 -> l !! (i + 1)%nat = Some b1 ->
  l !! (i + 2)%nat = Some b2 -> l !! (i + 3)%nat = Some b3 ->
  take i l ++ [b0; b1; b2; b3] ++ drop (i + 4) l = l.
Proof.
  revert l. induction i as [|i IH]; intros l E0 E1 E2 E3.
  - destruct l as [|x0 [|x1 [|x2 [|x3 l]]]]; simpl in *; try discriminate.
    rewrite drop_0. congruence.
  - destruct l as [|x l]; simpl in *; [discriminate|].
    f_equal. now apply IH.
Qed.

(** X15. Loading a column and storing it back changes nothing: on a
    16-octet buffer, PutStateColumn of the word read by GetWordFromBuffer
    at column c, into column c, gives the same buffer. *)
Theorem PutStateColumn_GetWordFromBuffer (c : Z) (buffer : list Z) :
  Forall byte_range buffer ->
  0 <= c < 4 ->
  length buffer = 16%nat ->
  exists w,
    GetWordFromBuffer buffer c = Some w /\
    PutStateColumn w c buffer = Some buffer.
Proof.
  intros Hb Hc Hlen.
  destruct (lookup_lt_is_Some_2 buffer (Z.to_nat (4 * c))) as [b0 E0]; [lia|].
  destruct (lookup_lt_is_Some_2 buffer (Z.to_nat (4 * c) + 1)) as [b1 E1]; [lia|].
  destruct (lookup_lt_is_Some_2 buffer (Z.to_nat (4 * c) + 2)) as [b2 E2]; [lia|].
  destruct (lookup_lt_is_Some_2 buffer (Z.to_nat (4 * c) + 3)) as [b3 E3]; [lia|].
  assert (B0 : byte_range b0) by (eapply Forall_lookup_1; eauto).
  assert (B1 : byte_range b1) by (eapply Forall_lookup_1; eauto).
  assert (B2 : byte_range b2) by (eapply Forall_lookup_1; eauto).
  assert (B3 : byte_range b3) by (eapply Forall_lookup_1; eauto).
  exists (pack b0 b1 b2 b3). split.
  - apply GetWordFromBuffer_pack; try lia; try assumption.
    + now replace (Z.to_nat (4 * c + 1)) with (Z.to_nat (4 * c) + 1)%nat by lia.
    + now replace (Z.to_nat (4 * c + 2)) with (Z.to_nat (4 * c) + 2)%nat by lia.
    + now replace (Z.to_nat (4 * c + 3)) with (Z.to_nat (4 * c) + 3)%nat by lia.
  - rewrite PutStateColumn_take_drop by (try apply pack_range; try assumption; lia).
    rewrite octets_of_word_pack by assumption.
    f_equal. now apply take_lookup4_drop.
Qed.

Lemma PutStateColumn_GetWordFromBuffer_witness :
  exists w,
    GetWordFromBuffer fips_plaintext 2 = Some w /\
    PutStateColumn w 2 fips_plaintext = Some fips_plaintext.
Proof.
  apply (PutStateColumn_GetWordFromBuffer 2 fips_plaintext).
  - exact fips_plaintext_range.
  - lia.
  - reflexivity.
Defined.

Lemma Forall_insert_octet (l : list Z) (i : nat) (v : Z) :
  Forall byte_range l -> byte_range v -> Forall byte_range (<[i := v]> l).
Proof.
  intros Hl Hv. apply Forall_lookup_2. intros j x Hx.
  destruct (decide (i = j)) as [->|Hne].
  - destruct (decide (j < length l)%nat).
    + rewrite list_lookup_insert_eq in Hx by assumption. now injection Hx as <-.
    + rewrite list_insert_ge in Hx by lia. eapply Forall_lookup_1; eauto.
  - rewrite list_lookup_insert_ne in Hx by assumption.
    eapply Forall_lookup_1; eauto.
Qed.

Lemma octet_u32 v k :
  0 <= k <= 24 -> Z.land (shr (u32 v) k) 0xff = Z.land (shr v k) 0xff.
Proof.
  intros Hk. unfold u32, shr. change 0xff with (Z.ones 8).
  rewrite <- Z.land_ones by lia. Z.bitblast.
Qed.

Lemma octet0_u32 v : Z.land (u32 v) 0xff = Z.land v 0xff.
Proof.
  unfold u32. change 0xff with (Z.ones 8).
  rewrite <- Z.land_ones by lia. Z.bitblast.
Qed.

(** X16. PutStateColumn stores the low 32 bits of its value and nothing
    else, and keeps an octet buffer an octet buffer: for any integer
    value, on a 16-octet buffer, the result is that of storing the value
    reduced modulo 2^32, it has 16 entries, and they are octets. *)
Theorem PutStateColumn_low_32_bits (value c : Z) (out : list Z) :
  Forall byte_range out ->
  0 <= c < 4 ->
  length out = 16%nat ->
  exists out',
    PutStateColumn value c out = Some out' /\
    PutStateColumn (u32 value) c out = Some out' /\
    length out' = 16%nat /\
    Forall byte_range out'.
Proof.
  intros Hb Hc Hlen. eexists. split; [|split; [|split]].
  - apply PutStateColumn_inserts; rewrite ?Hlen; lia.
  - unfold PutStateColumn. rewrite !octet_u32, octet0_u32 by lia.
    apply PutStateColumn_inserts; rewrite ?Hlen; lia.
  - now rewrite !length_insert.
  - auto using Forall_insert_octet, byte_range_u8 with octets.
Qed.

Lemma PutStateColumn_low_32_bits_witness :
  exists out',
    PutStateColumn 0x1deadbeef 3 fips_plaintext = Some out' /\
    PutStateColumn (u32 0x1deadbeef) 3 fips_plaintext = Some out' /\
    length out' = 16%nat /\
    Forall byte_range out'.
Proof.
  apply (PutStateColumn_low_32_bits 0x1deadbeef 3 fips_plaintext).
  - exact fips_plaintext_range.
  - lia.
  - reflexivity.
Defined.

Lemma put_columns_octets (s : State) (out : list Z) :
  state_range s -> length out = 16%nat ->
  put_columns s out = Some (octets_of_state s).
Proof.
  intros (H0 & H1 & H2 & H3) Hlen.
  do 16 (destruct out as [|? out]; [discriminate|]).
  destruct out; [|discriminate]. clear Hlen.
  unfold put_columns.
  rewrite (PutStateColumn_take_drop (col0 s) 0) by (assumption || simpl; lia).
  cbn [mbind option_bind].
  rewrite (PutStateColumn_take_drop (col1 s) 1) by (assumption || simpl; lia).
  cbn [mbind option_bind].
  rewrite (PutStateColumn_take_drop (col2 s) 2) by (assumption || simpl; lia).
  cbn [mbind option_bind].
  rewrite (PutStateColumn_take_drop (col3 s) 3) by (assumption || simpl; lia).
  reflexivity.
Qed.

(** X17. Storing the four columns of a state fills the whole block
    whatever it held before: after PutStateColumn for the columns 0, 1, 2
    and 3, a 16-octet buffer holds the sixteen octets of the state, column
    by column and most significant octet first, and GetWordFromBuffer
    reads each column back. *)
Theorem put_columns_fills_block (s : State) (out : list Z) :
  state_range s ->
  length out = 16%nat ->
  exists block,
    put_columns s out = Some block /\
    block = octets_of_state s /\
    GetWordFromBuffer block 0 = Some (col0 s) /\
    GetWordFromBuffer block 1 = Some (col1 s) /\
    GetWordFromBuffer block 2 = Some (col2 s) /\
    GetWordFromBuffer block 3 = Some (col3 s).
Proof.
  intros Hs Hlen. exists (octets_of_state s).
  split; [now apply put_columns_octets|]. split; [reflexivity|].
  destruct Hs as (H0 & H1 & H2 & H3).
  unfold octets_of_state, octets_of_word. cbn [app].
  repeat split.
  - erewrite (GetWordFromBuffer_pack _ 0) by (lia || reflexivity).
    now rewrite pack_bytes.
  - erewrite (GetWordFromBuffer_pack _ 1) by (lia || reflexivity).
    now rewrite pack_bytes.
  - erewrite (GetWordFromBuffer_pack _ 2) by (lia || reflexivity).
    now rewrite pack_bytes.
  - erewrite (GetWordFromBuffer_pack _ 3) by (lia || reflexivity).
    now rewrite pack_bytes.
Qed.

Lemma put_columns_fills_block_witness :
  exists block,
    put_columns sample_state fips_cipher128 = Some block /\
    block = octets_of_state sample_state /\
    GetWordFromBuffer block 0 = Some (col0 sample_state) /\
    GetWordFromBuffer block 1 = Some (col1 sample_state) /\
    GetWordFromBuffer block 2 = Some (col2 sample_state) /\
    GetWordFromBuffer block 3 = Some (col3 sample_state).
Proof.
  apply (put_columns_fills_block sample_state fips_cipher128).
  - exact sample_state_range.
  - reflexivity.
Defined.

(** * Further properties of the CPU check *)

Lemma CPUSupportsAES_NI_value (b : Build) (cpuid : Cpuid) :
  CPUSupportsAES_NI b cpuid =
  TERRA_USE_INTEL_AES_INTRINSICS b && negb (eax (cpuid 0) <? 1)
  && Z.testbit (ecx (cpuid 1)) 25.
Proof.
  unfold CPUSupportsAES_NI.
  destruct (TERRA_USE_INTEL_AES_INTRINSICS b); [|reflexivity].
  unfold CPUSupportsAES_NI_win32, CPUSupportsAES_NI_linux, CPUSupportsAES_NI_asm.
  change INTEL_AES_BIT with (Z.shiftl 1 25).
  destruct (eax (cpuid 0) <? 1); [now destruct (host b)|].
  destruct (host b); rewrite land_bit_eqb by lia; try reflexivity.
  unfold u32. cbn [andb negb]. apply Z.mod_pow2_bits_low. lia.
Qed.

(** X18. On every build and host, the answer of CPUSupportsAES_NI depends
    on the processor only through EAX of CPUID leaf 0 and bit 25 of ECX of
    leaf 1: two processors that agree on these get the same answer; and
    when leaf 0 reports less than 1, nothing of leaf 1 matters. *)
Theorem CPUSupportsAES_NI_reads_two_registers (b : Build) (cpuid cpuid' : Cpuid) :
  (eax (cpuid 0) = eax (cpuid' 0) ->
   Z.testbit (ecx (cpuid 1)) 25 = Z.testbit (ecx (cpuid' 1)) 25 ->
   CPUSupportsAES_NI b cpuid = CPUSupportsAES_NI b cpuid') /\
  (eax (cpuid 0) = eax (cpuid' 0) -> eax (cpuid 0) < 1 ->
   CPUSupportsAES_NI b cpuid = CPUSupportsAES_NI b cpuid').
Proof.
  rewrite !CPUSupportsAES_NI_value. split.
  - intros -> ->. reflexivity.
  - intros <- Hlt. destruct (Z.ltb_spec (eax (cpuid 0)) 1); [|lia].
    simpl. now rewrite !andb_false_r.
Qed.

Lemma as_int_small r : 0 <= r < 2 ^ 31 -> as_int r = r.
Proof. intros Hr. unfold as_int. destruct (Z.ltb_spec r (2 ^ 31)); lia. Qed.

Lemma as_int_bit r n : 0 <= n < 32 -> Z.testbit (as_int r) n = Z.testbit r n.
Proof.
  intros Hn. unfold as_int. destruct (r <? 2 ^ 31); [reflexivity|].
  rewrite <- (Z.mod_pow2_bits_low (r - 2 ^ 32) 32 n) by lia.
  rewrite <- (Z.mod_pow2_bits_low r 32 n) by lia.
  f_equal. replace (r - 2 ^ 32) with (r + (-1) * 2 ^ 32) by lia.
  apply Z.mod_add. lia.
Qed.

(** X19. The Windows variant reads the registers as [int].  On the same
    register contents it answers as the Linux variant whenever EAX of
    leaf 0 is below 2^31; when EAX of leaf 0 has its top bit set, the
    Windows variant answers false (the value is negative as an [int]),
    while the Linux variant answers with bit 25 of ECX of leaf 1. *)
Theorem CPUSupportsAES_NI_win32_signed (cpuid : Cpuid) :
  0 <= eax (cpuid 0) < 2 ^ 32 ->
  (eax (cpuid 0) < 2 ^ 31 ->
   CPUSupportsAES_NI_win32 (cpuid_as_int cpuid) = CPUSupportsAES_NI_linux cpuid) /\
  (2 ^ 31 <= eax (cpuid 0) ->
   CPUSupportsAES_NI_win32 (cpuid_as_int cpuid) = false /\
   CPUSupportsAES_NI_linux cpuid = Z.testbit (ecx (cpuid 1)) 25).
Proof.
  intros Hr.
  assert (W : CPUSupportsAES_NI_win32 (cpuid_as_int cpuid) =
              negb (as_int (eax (cpuid 0)) <? 1) && Z.testbit (ecx (cpuid 1)) 25).
  { unfold CPUSupportsAES_NI_win32, cpuid_as_int. cbn [eax ecx].
    change INTEL_AES_BIT with (Z.shiftl 1 25).
    destruct (as_int (eax (cpuid 0)) <? 1); [reflexivity|].
    rewrite land_bit_eqb by lia. unfold u32.
    rewrite Z.mod_pow2_bits_low by lia. cbn [andb negb]. apply as_int_bit. lia. }
  assert (L : CPUSupportsAES_NI_linux cpuid =
              negb (eax (cpuid 0) <? 1) && Z.testbit (ecx (cpuid 1)) 25).
  { unfold CPUSupportsAES_NI_linux. change INTEL_AES_BIT with (Z.shiftl 1 25).
    destruct (eax (cpuid 0) <? 1); [reflexivity|].
    now rewrite land_bit_eqb by lia. }
  rewrite W, L. split.
  - intros Hlt. now rewrite as_int_small by lia.
  - intros Hge. unfold as_int.
    destruct (Z.ltb_spec (eax (cpuid 0)) (2 ^ 31)); [lia|].
    destruct (Z.ltb_spec (eax (cpuid 0) - 2 ^ 32) 1); [|lia].
    destruct (Z.ltb_spec (eax (cpuid 0)) 1); [lia|].
    split; reflexivity.
Qed.

Lemma CPUSupportsAES_NI_win32_signed_witness :
  (0x80000000 < 2 ^ 31 ->
   CPUSupportsAES_NI_win32
     (cpuid_as_int (fun _ => mkRegs 0x80000000 0 0x02000000 0))
   = CPUSupportsAES_NI_linux (fun _ => mkRegs 0x80000000 0 0x02000000 0)) /\
  (2 ^ 31 <= 0x80000000 ->
   CPUSupportsAES_NI_win32
     (cpuid_as_int (fun _ => mkRegs 0x80000000 0 0x02000000 0)) = false /\
   CPUSupportsAES_NI_linux (fun _ => mkRegs 0x80000000 0 0x02000000 0)
   = Z.testbit 0x02000000 25).
Proof.
  apply (CPUSupportsAES_NI_win32_signed (fun _ => mkRegs 0x80000000 0 0x02000000 0)).
  simpl. lia.
Defined.
